(** * The downmixer of the QO-100 WebSDR (src/downmixer.c)

    A shallow embedding of the numerically controlled oscillator, the
    frequency tuner, the I/Q multiplier and the automatic level shifter,
    the properties of them that the specification states, and further
    properties of the code: of streams of samples, of what a run prints and
    commands, of the control word and of the entries of the sine table.

    The C globals become one record that every function threads through;
    array accesses outside their bounds, which C leaves undefined, make a
    function return [None]. Integers are [Z] with the wrap-around of their
    C type written out; doubles are IEEE 754 binary64 numbers. Where C
    leaves a result to the implementation (the narrowing of an [int] to a
    [short], the right shift of a negative [int]) or leaves it undefined
    (the conversion of a double outside the range of the integer type), the
    model does what gcc does on x86-64. *)

From Stdlib Require Import ZArith Lia Lra Bool SpecFloat Reals.
From stdpp Require Import base option list.

Local Open Scope Z_scope.

(** ** Machine integers *)

Module Int.

(** [uint32_t]: arithmetic modulo [2^32]. *)
Definition uint32 (z : Z) : Z := z mod 2 ^ 32.

(** A signed [w]-bit integer in two's complement. *)
Definition signed (w : Z) (z : Z) : Z :=
  (z + 2 ^ (w - 1)) mod 2 ^ w - 2 ^ (w - 1).

(** [short] and [int] as the compiler has them (16 and 32 bits): a value
    out of range keeps its low bits. *)
Definition short (z : Z) : Z := signed 16 z.
Definition int (z : Z) : Z := signed 32 z.

Definition is_uint32 (z : Z) : Prop := 0 <= z < 2 ^ 32.
Definition is_short (z : Z) : Prop := -32768 <= z <= 32767.
Definition is_int (z : Z) : Prop := -2147483648 <= z <= 2147483647.

End Int.

(** ** Doubles

    A C [double] is an IEEE 754 binary64 number: the operations are the
    ones of the standard library's executable specification at precision
    53 and maximal exponent 1024. *)

Module Double.

Definition double : Type := spec_float.

Definition prec : Z := 53.
Definition emax : Z := 1024.

Definition add : double -> double -> double := SFadd prec emax.
Definition sub : double -> double -> double := SFsub prec emax.
Definition mul : double -> double -> double := SFmul prec emax.
Definition div : double -> double -> double := SFdiv prec emax.

(** [(double)z] for an integer [z]. *)
Definition of_int (z : Z) : double := binary_normalize prec emax z 0 false.

(** The integer part of a finite double (rounding toward zero). *)
Definition trunc (x : double) : option Z :=
  match x with
  | S754_zero _ => Some 0
  | S754_finite s m (Zneg k) => Some (cond_Zopp s (Zpos m / 2 ^ Zpos k))
  | S754_finite s m e => Some (cond_Zopp s (Zpos m * 2 ^ e))
  | S754_infinity _ | S754_nan => None
  end.

(** The conversion of a double to a signed [w]-bit integer, [w] being 32
    or 64, as the processor does it (x86-64 [cvttsd2si]): the integer
    part when it fits, and the smallest integer otherwise. *)
Definition cvttsd2si (w : Z) (x : double) : Z :=
  match trunc x with
  | Some t =>
      if (- 2 ^ (w - 1) <=? t) && (t <? 2 ^ (w - 1)) then t
      else - 2 ^ (w - 1)
  | None => - 2 ^ (w - 1)
  end.

(** [(uint32_t)x]. Where the integer part of [x] is in [0, 2^32) this is
    that integer part. C leaves the other cases undefined; the compiled
    code converts to 64 bits and keeps the low 32. *)
Definition to_uint32 (x : double) : Z := Int.uint32 (cvttsd2si 64 x).

(** The implicit conversion of a double stored into a [short]: the
    integer part where it is in the range of [short]; otherwise (undefined
    in C) the 32-bit conversion, of which the low 16 bits are stored. *)
Definition to_short (x : double) : Z := Int.short (cvttsd2si 32 x).

(** [M_PI] of <math.h>: the double nearest to pi, 0x400921FB54442D18. *)
Definition M_PI : double := S754_finite false 7074237752028440 (-51).

Definition zero : double := S754_zero false.

(** A normal double has a mantissa of 53 digits. *)
Definition normal (m : positive) : Prop := Zpos (digits2_pos m) = 53.

End Double.

(** ** A sine to run the model with

    [sin] is the C library's, not the repository's: the functions below
    take it as a parameter. To evaluate them, this module gives one sine on
    doubles, by reduction of the argument to [-pi/4, pi/4] and the Taylor
    polynomials of sine and cosine there. *)

Module Libm.

Import Double.

Definition ratio (p q : Z) : double := div (of_int p) (of_int q).

Definition half_pi : double := div M_PI (of_int 2).

(** The polynomial [c0 + y*(c1 + y*(c2 + ...))]. *)
Fixpoint horner (cs : list double) (y : double) : double :=
  match cs with
  | [] => zero
  | c :: cs => add c (mul y (horner cs y))
  end.

(** [1/1!, -1/3!, 1/5!, ...] and [1/0!, -1/2!, 1/4!, ...] *)
Definition sin_coefficients : list double :=
  [ratio 1 1; ratio (-1) 6; ratio 1 120; ratio (-1) 5040; ratio 1 362880;
   ratio (-1) 39916800; ratio 1 6227020800; ratio (-1) 1307674368000;
   ratio 1 355687428096000].
Definition cos_coefficients : list double :=
  [ratio 1 1; ratio (-1) 2; ratio 1 24; ratio (-1) 720; ratio 1 40320;
   ratio (-1) 3628800; ratio 1 479001600; ratio (-1) 87178291200;
   ratio 1 20922789888000].

Definition sin_kernel (r : double) : double :=
  mul r (horner sin_coefficients (mul r r)).
Definition cos_kernel (r : double) : double :=
  horner cos_coefficients (mul r r).

(** The sine of a double that is not negative. *)
Definition sin_nonneg (x : double) : double :=
  let k := cvttsd2si 64 (add (div x half_pi) (ratio 1 2)) in
  let r := sub x (mul (of_int k) half_pi) in
  match k mod 4 with
  | 0 => sin_kernel r
  | 1 => cos_kernel r
  | 2 => SFopp (sin_kernel r)
  | _ => SFopp (cos_kernel r)
  end.

Definition sin (x : double) : double :=
  match x with
  | S754_zero _ | S754_nan => x
  | S754_infinity _ => S754_nan
  | S754_finite false _ _ => sin_nonneg x
  | S754_finite true _ _ => SFopp (sin_nonneg (SFopp x))
  end.

End Libm.

(** ** The globals of downmixer.c *)

(** The two lines the program prints. *)
Inductive message : Type :=
  | set_mixer_qrg (fr client_no : Z)
  | level_shifter_adapted (sht : Z).

(** [trx_frequency] and [ser_command] belong to the CAT interface (cat.h);
    [downmixer_setFrequency] writes both. Their types are declared there:
    the frequency is kept as the integer that the sum denotes. *)
Record cat : Type := Cat { trx_frequency : Z; ser_command : Z }.

Record globals : Type := Globals {
  sinetable : list Z;      (* short sinetable[SINETABSIZE] *)
  samplerate : Z;          (* int samplerate *)
  fcw : list Z;            (* uint32_t fcw[MAX_CLIENTS] *)
  accu : list Z;           (* uint32_t accu[MAX_CLIENTS] *)
  sht : Z;                 (* int sht = 10 *)
  trx : cat;
  stdout : list message
}.

Definition SINETABSIZE : Z := 65536.

Definition with_sinetable (t : list Z) (g : globals) : globals :=
  Globals t (samplerate g) (fcw g) (accu g) (sht g) (trx g) (stdout g).
Definition with_samplerate (r : Z) (g : globals) : globals :=
  Globals (sinetable g) r (fcw g) (accu g) (sht g) (trx g) (stdout g).
Definition with_fcw (f : list Z) (g : globals) : globals :=
  Globals (sinetable g) (samplerate g) f (accu g) (sht g) (trx g) (stdout g).
Definition with_accu (a : list Z) (g : globals) : globals :=
  Globals (sinetable g) (samplerate g) (fcw g) a (sht g) (trx g) (stdout g).
Definition with_sht (s : Z) (g : globals) : globals :=
  Globals (sinetable g) (samplerate g) (fcw g) (accu g) s (trx g) (stdout g).
Definition with_trx (c : cat) (g : globals) : globals :=
  Globals (sinetable g) (samplerate g) (fcw g) (accu g) (sht g) c (stdout g).
Definition printf (m : message) (g : globals) : globals :=
  Globals (sinetable g) (samplerate g) (fcw g) (accu g) (sht g) (trx g)
    (stdout g ++ [m]).

(** ** Arrays indexed by a C [int] *)

Definition in_bounds (a : list Z) (i : Z) : bool :=
  (0 <=? i) && (i <? Z.of_nat (length a)).

(** [a[i]] *)
Definition load (a : list Z) (i : Z) : option Z :=
  if in_bounds a i then a !! Z.to_nat i else None.

(** [a[i] = v] *)
Definition store (a : list Z) (i v : Z) : option (list Z) :=
  if in_bounds a i then Some (<[Z.to_nat i := v]> a) else None.

(** ** The functions *)

Section Downmixer.

(** Macros of qo100websdr.h, and the sine of the C library. *)
Variable MAX_CLIENTS : nat.
Variable NB_SAMPLE_RATE : Z.
Variable TUNED_FREQUENCY : Z.
Variable sin : Double.double -> Double.double.

(** The globals when the program starts: static storage is zero, [sht]
    is 10; the CAT variables are what cat.c makes them. *)
Definition program_start (c : cat) : globals :=
  {| sinetable := replicate (Z.to_nat SINETABSIZE) 0;
     samplerate := 0;
     fcw := replicate MAX_CLIENTS 0;
     accu := replicate MAX_CLIENTS 0;
     sht := 10;
     trx := c;
     stdout := [] |}.

(** [static double p232 = pow(2,32);] *)
Definition p232 : Double.double := Double.of_int (2 ^ 32).

(** [(uint32_t)((double)fr * p232 / (double)samplerate)] *)
Definition control_word (fr rate : Z) : Z :=
  Double.to_uint32
    (Double.div (Double.mul (Double.of_int fr) p232) (Double.of_int rate)).

Definition downmixer_setFrequency (fr client_no : Z) (g : globals)
  : option globals :=
  let g := if decide (fr = 10000) then g
           else printf (set_mixer_qrg fr client_no) g in
  let g := with_trx (Cat (fr + TUNED_FREQUENCY) 2) g in
  fcw' ← store (fcw g) client_no (control_word fr (samplerate g));
  Some (with_fcw fcw' g).

Definition increment_NCO (client_no : Z) (g : globals)
  : option (Z * globals) :=
  (* accu[client_no] += fcw[client_no]; *)
  a ← load (accu g) client_no;
  f ← load (fcw g) client_no;
  accu1 ← store (accu g) client_no (Int.uint32 (a + f));
  (* accu[client_no] &= 0xffffffff; *)
  a1 ← load accu1 client_no;
  accu2 ← store accu1 client_no (Z.land a1 0xffffffff);
  (* return sinetable[accu[client_no] >> 16]; *)
  a2 ← load accu2 client_no;
  lo ← load (sinetable g) (Z.shiftr a2 16);
  Some (lo, with_accu accu2 g).

(** The body of [downmixer_process] after the call of the oscillator, which
    returned [lo] and left the globals [g]: the mixing, the two samples
    written back, and the adaptation of the level shift. *)
Definition mix (isample qsample lo : Z) (g : globals) : Z * Z * globals :=
  (* int ix = (int) *pisample * lo;  int qx = (int) *pqsample * lo; *)
  let ix := Int.int (isample * lo) in
  let qx := Int.int (qsample * lo) in
  (* *pisample = (short)(ix >> sht);  *pqsample = (short)(qx >> sht);
     the shift of a signed int is arithmetic: [Z.shiftr] rounds down *)
  (Int.short (Z.shiftr ix (sht g)), Int.short (Z.shiftr qx (sht g)),
   (* if((ix>>sht) > 32767 && sht < 15) { printf(...); sht++; } *)
   if (32767 <? Z.shiftr ix (sht g)) && (sht g <? 15)
   then with_sht (Int.int (sht g + 1))
          (printf (level_shifter_adapted (sht g)) g)
   else g).

(** [downmixer_process(&i, &q, client)] on two distinct samples holding
    [isample] and [qsample]: the two samples afterwards, and the globals. *)
Definition downmixer_process (isample qsample client : Z) (g : globals)
  : option (Z * Z * globals) :=
  '(lo, g) ← increment_NCO client g;
  Some (mix isample qsample lo g).

(** The step of the phase, [(2*M_PI)/SINETABSIZE]. *)
Definition phase_step : Double.double :=
  Double.div (Double.mul (Double.of_int 2) Double.M_PI)
    (Double.of_int SINETABSIZE).

(** [sin(v) * 32768], stored into a [short]. *)
Definition sine_sample (v : Double.double) : Z :=
  Double.to_short (Double.mul (sin v) (Double.of_int 32768)).

(** [for(int i=0; i<SINETABSIZE; i++) { sinetable[i] = ...; v += ...; }]:
    the loop writes the entries in order, [n] of them from phase [v] on;
    the result is the list of what it wrote. *)
Fixpoint fill_sinetable (n : nat) (v : Double.double) : list Z :=
  match n with
  | O => []
  | S n => sine_sample v :: fill_sinetable n (Double.add v phase_step)
  end.

(** [n] rounds of the loop over the clients, from client [i]. *)
Fixpoint default_frequency (n : nat) (i : Z) (g : globals)
  : option globals :=
  match n with
  | O => Some g
  | S n =>
      g ← downmixer_setFrequency 10000 i g;
      a ← store (accu g) i 0;
      default_frequency n (i + 1) (with_accu a g)
  end.

Definition downmixer_init (g : globals) : option globals :=
  let g := with_samplerate NB_SAMPLE_RATE g in
  let t := fill_sinetable (Z.to_nat SINETABSIZE) Double.zero in
  default_frequency MAX_CLIENTS 0 (with_sinetable t g).

(** ** Runs of the program *)

Inductive call : Type :=
  | Init
  | SetFrequency (fr client_no : Z)
  | Process (isample qsample client : Z).

(** One call: the globals afterwards and, for [Process], the samples that
    were written back. *)
Definition exec (c : call) (g : globals) : option (option (Z * Z) * globals) :=
  match c with
  | Init => g ← downmixer_init g; Some (None, g)
  | SetFrequency fr n => g ← downmixer_setFrequency fr n g; Some (None, g)
  | Process i q n =>
      '(i', q', g) ← downmixer_process i q n g; Some (Some (i', q'), g)
  end.

(** A sequence of calls: the samples written back, in order, and the
    globals at the end. *)
Fixpoint run (cs : list call) (g : globals)
  : option (list (Z * Z) * globals) :=
  match cs with
  | [] => Some ([], g)
  | c :: cs =>
      '(o, g) ← exec c g;
      '(os, g) ← run cs g;
      Some (match o with Some s => s :: os | None => os end, g)
  end.

End Downmixer.

(** ** Invariants and notions of the specification *)

(** What the C types and the initial values guarantee of the globals:
    the sizes of the arrays, the ranges of their elements, and the range of
    the level shift. *)
Record wf (MAX_CLIENTS : nat) (g : globals) : Prop := Wf {
  wf_table_size : length (sinetable g) = Z.to_nat SINETABSIZE;
  wf_table : Forall Int.is_short (sinetable g);
  wf_fcw_size : length (fcw g) = MAX_CLIENTS;
  wf_fcw : Forall Int.is_uint32 (fcw g);
  wf_accu_size : length (accu g) = MAX_CLIENTS;
  wf_accu : Forall Int.is_uint32 (accu g);
  wf_sht : 10 <= sht g <= 15
}.

(** A valid channel. *)
Definition channel (MAX_CLIENTS : nat) (c : Z) : Prop :=
  0 <= c < Z.of_nat MAX_CLIENTS.

(** The calls whose arguments are of their C types and name a channel that
    exists. *)
Definition valid_call (MAX_CLIENTS : nat) (c : call) : Prop :=
  match c with
  | Init => True
  | SetFrequency fr n => Int.is_int fr /\ channel MAX_CLIENTS n
  | Process i q n => Int.is_short i /\ Int.is_short q /\ channel MAX_CLIENTS n
  end.

(** The phase [v] when the loop of [downmixer_init] reaches index [i]. *)
Definition phase (i : nat) : Double.double :=
  Nat.iter i (fun v => Double.add v phase_step) Double.zero.

(** [round(a / b)] for [0 < b]: the nearest integer, ties upward. *)
Definition round_div (a b : Z) : Z := (2 * a + b) / (2 * b).

(** [n] calls of [downmixer_process] on the same samples and channel. *)
Definition repeat_process (n : nat) (isample qsample client : Z) : list call :=
  replicate n (Process isample qsample client).

(** The globals once [downmixer_init] has run and channel 0 is tuned to the
    offset 0. *)
Definition silent (MAX_CLIENTS : nat) (NB_SAMPLE_RATE TUNED_FREQUENCY : Z)
    (sin : Double.double -> Double.double) (c : cat) : globals :=
  {| sinetable := fill_sinetable sin (Z.to_nat SINETABSIZE) Double.zero;
     samplerate := NB_SAMPLE_RATE;
     fcw := <[O := 0]> (replicate MAX_CLIENTS (control_word 10000 NB_SAMPLE_RATE));
     accu := replicate MAX_CLIENTS 0;
     sht := 10;
     trx := Cat (0 + TUNED_FREQUENCY) 2;
     stdout := [set_mixer_qrg 0 0] |}.

(** One configuration to run the program in: two clients, 2.4 MS/s (the
    rate of the comments in downmixer.c), and the polynomial sine. *)
Module Bench.

Definition MAX_CLIENTS : nat := 2.
Definition NB_SAMPLE_RATE : Z := 2400000.
Definition TUNED_FREQUENCY : Z := 0.

Abbreviation start := (program_start MAX_CLIENTS (Cat 0 0)).

Abbreviation run :=
  (run MAX_CLIENTS NB_SAMPLE_RATE TUNED_FREQUENCY Libm.sin).

(** The globals after [downmixer_init]: both channels at 10 kHz. *)
Definition table : list Z :=
  fill_sinetable Libm.sin (Z.to_nat SINETABSIZE) Double.zero.

Definition ready : globals :=
  {| sinetable := table;
     samplerate := 2400000;
     fcw := [17895697; 17895697];
     accu := [0; 0];
     sht := 10;
     trx := Cat 10000 2;
     stdout := [] |}.

(** ... and after [downmixer_setFrequency(fr, 0)] gave channel 0 the
    control word [w]. *)
Definition tuned (fr w : Z) : globals :=
  {| sinetable := table;
     samplerate := 2400000;
     fcw := [w; 17895697];
     accu := [0; 0];
     sht := 10;
     trx := Cat fr 2;
     stdout := [set_mixer_qrg fr 0] |}.

(** ... and after one step of channel 0 that raised the level shift. *)
Definition shifted (fr w : Z) : globals :=
  {| sinetable := table;
     samplerate := 2400000;
     fcw := [w; 17895697];
     accu := [w; 0];
     sht := 11;
     trx := Cat fr 2;
     stdout := [set_mixer_qrg fr 0; level_shifter_adapted 10] |}.

End Bench.

(** ** The claims that the program does not meet, as they are stated *)

(** C1, the scenario of the zero offset: every output is the input times a
    constant oscillator value near full scale (here: at least half of it),
    shifted by the initial 10 bits. *)
Definition near_unity (lo : Z) : Prop := 16384 <= lo <= 32767.

Definition zero_offset_claim
    (run : list call -> globals -> option (list (Z * Z) * globals))
    (start : globals) : Prop :=
  forall n, exists lo g',
    near_unity lo /\
    run ([Init; SetFrequency 0 0] ++ repeat_process n 1000 (-500) 0) start =
    Some (replicate n (Int.short (Z.shiftr (1000 * lo) 10),
                       Int.short (Z.shiftr (-500 * lo) 10)), g').

(** C2, the trigger of the level shift: the magnitude of the rescaled
    product of I or of Q is above 32767, and the shift is below 15. *)
Definition magnitude_trigger (isample qsample lo s : Z) : bool :=
  ((32767 <? Z.abs (Z.shiftr (isample * lo) s))
   || (32767 <? Z.abs (Z.shiftr (qsample * lo) s)))
  && (s <? 15).

Definition level_shift_claim (isample qsample client : Z) (g : globals) : Prop :=
  forall lo g1 i' q' g',
    increment_NCO client g = Some (lo, g1) ->
    downmixer_process isample qsample client g = Some (i', q', g') ->
    sht g' = if magnitude_trigger isample qsample lo (sht g)
             then sht g + 1 else sht g.

(** C3, the conversion to the control word: the rounded quotient. *)
Definition control_word_claim (T fr client : Z) (g : globals) : Prop :=
  forall g',
    downmixer_setFrequency T fr client g = Some g' ->
    load (fcw g') client = Some (round_div (fr * 2 ^ 32) (samplerate g)).

(** C4, the contents of the table: entry [i] is within one half of
    [sin(2 pi i / 65536) * 32767], that is, it is that number rounded. *)
Definition sinetable_claim (t : list Z) : Prop :=
  forall i, 0 <= i < SINETABSIZE ->
    exists x, load t i = Some x /\
      (Rabs (IZR x - Rtrigo_def.sin (2 * PI * IZR i / 65536) * 32767)
         <= 1 / 2)%R.

(** ** Notions for the further properties *)

(** The calls of [downmixer_process] on channel [client], one for each pair
    of a stream of samples. *)
Definition process_stream (client : Z) (samples : list (Z * Z)) : list call :=
  map (fun s => Process s.1 s.2 client) samples.

(** The samples that the calls of [downmixer_process] in a run take. *)
Definition inputs (cs : list call) : list (Z * Z) :=
  omap (fun x => match x with Process i q _ => Some (i, q) | _ => None end) cs.

(** What was printed, line by line: the level shifts announced, and the
    offsets and channels announced. *)
Definition level_messages (out : list message) : list Z :=
  omap (fun m => match m with
                 | level_shifter_adapted s => Some s
                 | set_mixer_qrg _ _ => None
                 end) out.
Definition qrg_messages (out : list message) : list (Z * Z) :=
  omap (fun m => match m with
                 | set_mixer_qrg fr n => Some (fr, n)
                 | level_shifter_adapted _ => None
                 end) out.

(** The offset and channel that a call makes [downmixer_setFrequency]
    print: those of a call from outside with an offset other than 10000. *)
Definition logged (x : call) : option (Z * Z) :=
  match x with
  | SetFrequency fr n => if decide (fr = 10000) then None else Some (fr, n)
  | Init | Process _ _ _ => None
  end.

(** The offset that a call passes to [downmixer_setFrequency] last:
    [downmixer_init] passes 10000 for every client, if there is one. *)
Definition tunes (MAX_CLIENTS : nat) (x : call) : option Z :=
  match x with
  | Init => if decide (MAX_CLIENTS = O) then None else Some 10000
  | SetFrequency fr _ => Some fr
  | Process _ _ _ => None
  end.

(** The calls that name a channel other than [c]. *)
Definition leaves_alone (c : Z) (x : call) : Prop :=
  match x with
  | Init => False
  | SetFrequency _ n | Process _ _ n => n <> c
  end.

(** * Properties *)

(** Case analysis on every integer comparison of the goal. *)
Ltac compare_all :=
  repeat match goal with
    | |- context [?a <=? ?b] => destruct (Z.leb_spec a b)
    | |- context [?a <? ?b] => destruct (Z.ltb_spec a b)
    end;
  cbn; try reflexivity; try lia.

(** ** Machine integers *)

Lemma uint32_range z : Int.is_uint32 (Int.uint32 z).
Proof. unfold Int.is_uint32, Int.uint32. apply Z.mod_pos_bound. lia. Qed.

Lemma uint32_id z : Int.is_uint32 z -> Int.uint32 z = z.
Proof. unfold Int.is_uint32, Int.uint32. intros H. apply Z.mod_small. lia. Qed.

Lemma signed_range w z :
  0 < w -> - 2 ^ (w - 1) <= Int.signed w z < 2 ^ (w - 1).
Proof.
  intros Hw. unfold Int.signed.
  assert (H2 : 2 ^ w = 2 * 2 ^ (w - 1)).
  { rewrite <- Z.pow_succ_r by lia. f_equal. lia. }
  assert (Hp : 0 < 2 ^ (w - 1)) by (apply Z.pow_pos_nonneg; lia).
  pose proof (Z.mod_pos_bound (z + 2 ^ (w - 1)) (2 ^ w)). lia.
Qed.

Lemma signed_id w z :
  0 < w -> - 2 ^ (w - 1) <= z < 2 ^ (w - 1) -> Int.signed w z = z.
Proof.
  intros Hw Hz. unfold Int.signed.
  assert (H2 : 2 ^ w = 2 * 2 ^ (w - 1)).
  { rewrite <- Z.pow_succ_r by lia. f_equal. lia. }
  rewrite Z.mod_small by lia. lia.
Qed.

Lemma short_range z : Int.is_short (Int.short z).
Proof.
  pose proof (signed_range 16 z). unfold Int.is_short, Int.short.
  change (2 ^ (16 - 1)) with 32768 in *. lia.
Qed.

Lemma short_id z : Int.is_short z -> Int.short z = z.
Proof.
  unfold Int.is_short, Int.short. intros H. apply signed_id; [lia|].
  change (2 ^ (16 - 1)) with 32768. lia.
Qed.

Lemma int_id z : Int.is_int z -> Int.int z = z.
Proof.
  unfold Int.is_int, Int.int. intros H. apply signed_id; [lia|].
  change (2 ^ (32 - 1)) with 2147483648. lia.
Qed.

Lemma land_mask a : Int.is_uint32 a -> Z.land a 0xffffffff = a.
Proof.
  unfold Int.is_uint32. intros H.
  change 0xffffffff with (Z.ones 32).
  rewrite Z.land_ones by lia. apply Z.mod_small. lia.
Qed.

(** The product of two [short]s fits an [int]. *)
Lemma short_product i lo :
  Int.is_short i -> Int.is_short lo ->
  Z.abs (i * lo) <= 2 ^ 30 /\ Int.is_int (i * lo).
Proof.
  unfold Int.is_short, Int.is_int. intros Hi Hlo.
  change (2 ^ 30) with 1073741824. nia.
Qed.

(** The top 16 bits of an accumulator index the table. *)
Lemma phase_index a :
  Int.is_uint32 a -> 0 <= Z.shiftr a 16 < SINETABSIZE.
Proof.
  unfold Int.is_uint32, SINETABSIZE. intros H.
  rewrite Z.shiftr_div_pow2 by lia. change (2 ^ 16) with 65536.
  change (2 ^ 32) with (65536 * 65536) in H.
  split; [apply Z.div_pos; lia | apply Z.div_lt_upper_bound; lia].
Qed.

(** ** Arrays *)

Section Arrays.

Implicit Types (a : list Z) (i j v : Z).

Lemma in_bounds_true a i :
  in_bounds a i = true <-> 0 <= i < Z.of_nat (length a).
Proof. unfold in_bounds. rewrite andb_true_iff. lia. Qed.

Lemma load_Some a i x :
  load a i = Some x <->
  0 <= i < Z.of_nat (length a) /\ a !! Z.to_nat i = Some x.
Proof.
  unfold load. destruct (in_bounds a i) eqn:E.
  - apply in_bounds_true in E. tauto.
  - split; [discriminate|]. intros [H _].
    apply in_bounds_true in H. congruence.
Qed.

Lemma load_in_bounds a i :
  0 <= i < Z.of_nat (length a) -> exists x, load a i = Some x.
Proof.
  intros H. destruct (lookup_lt_is_Some_2 a (Z.to_nat i)) as [x Hx]; [lia|].
  exists x. apply load_Some. auto.
Qed.

Lemma store_in_bounds a i v :
  0 <= i < Z.of_nat (length a) ->
  store a i v = Some (<[Z.to_nat i := v]> a).
Proof.
  intros H. unfold store.
  apply in_bounds_true in H. now rewrite H.
Qed.

Lemma store_Some a i v a' :
  store a i v = Some a' <->
  0 <= i < Z.of_nat (length a) /\ a' = <[Z.to_nat i := v]> a.
Proof.
  unfold store. destruct (in_bounds a i) eqn:E.
  - apply in_bounds_true in E. split.
    + intros [= <-]. auto.
    + intros [_ ->]. reflexivity.
  - split; [discriminate|]. intros [H _].
    apply in_bounds_true in H. congruence.
Qed.

Lemma load_insert_eq a i v :
  0 <= i < Z.of_nat (length a) ->
  load (<[Z.to_nat i := v]> a) i = Some v.
Proof.
  intros H. apply load_Some. rewrite length_insert. split; [assumption|].
  apply list_lookup_insert_eq. lia.
Qed.

Lemma load_insert_ne a i j v :
  0 <= i -> i <> j -> load (<[Z.to_nat i := v]> a) j = load a j.
Proof.
  intros Hi Hne. unfold load, in_bounds. rewrite length_insert.
  destruct ((0 <=? j) && (j <? Z.of_nat (length a))) eqn:E; [|reflexivity].
  apply andb_true_iff in E. apply list_lookup_insert_ne. lia.
Qed.

Lemma load_Forall (P : Z -> Prop) a i x :
  Forall P a -> load a i = Some x -> P x.
Proof.
  intros Ha H. apply load_Some in H as [_ H].
  exact (Forall_lookup_1 P a _ x Ha H).
Qed.

Lemma load_replicate n v i :
  0 <= i < Z.of_nat n -> load (replicate n v) i = Some v.
Proof.
  intros H. apply load_Some. rewrite length_replicate. split; [assumption|].
  apply lookup_replicate_2. lia.
Qed.

Lemma list_eq_load a b :
  length a = length b ->
  (forall i, 0 <= i < Z.of_nat (length a) -> load a i = load b i) ->
  a = b.
Proof.
  intros Hl H. apply list_eq. intros n.
  destruct (decide (n < length a)%nat) as [Hn|Hn].
  - specialize (H (Z.of_nat n)). unfold load, in_bounds in H.
    rewrite <- Hl, Nat2Z.id in H.
    replace ((0 <=? Z.of_nat n) && (Z.of_nat n <? Z.of_nat (length a)))
      with true in H by (symmetry; apply andb_true_iff; lia).
    apply H. lia.
  - rewrite !lookup_ge_None_2 by lia. reflexivity.
Qed.

End Arrays.

(** ** The oscillator *)

(** The accumulator after one step from [a] with control word [f]. *)
Lemma accu_step a f :
  Z.land (Int.uint32 (a + f)) 0xffffffff = (a + f) mod 2 ^ 32.
Proof. apply land_mask, uint32_range. Qed.

Lemma increment_NCO_inv c g lo g' :
  increment_NCO c g = Some (lo, g') ->
  exists a f,
    load (accu g) c = Some a /\ load (fcw g) c = Some f /\
    load (sinetable g) (Z.shiftr ((a + f) mod 2 ^ 32) 16) = Some lo /\
    g' = with_accu (<[Z.to_nat c := (a + f) mod 2 ^ 32]> (accu g)) g.
Proof.
  unfold increment_NCO. intros H.
  destruct (load (accu g) c) as [a|] eqn:Ha; [|discriminate].
  destruct (load (fcw g) c) as [f|] eqn:Hf; [|discriminate].
  cbn in H. pose proof Ha as Hb. apply load_Some in Hb as [Hb _].
  rewrite (store_in_bounds _ _ _ Hb) in H. cbn in H.
  rewrite (load_insert_eq _ _ _ Hb) in H. cbn in H.
  rewrite store_in_bounds in H by (rewrite length_insert; exact Hb).
  cbn in H. rewrite list_insert_insert_eq, accu_step in H.
  rewrite (load_insert_eq _ _ _ Hb) in H. cbn in H.
  destruct (load (sinetable g) _) as [x|] eqn:Hx; [|discriminate].
  cbn in H. injection H as <- <-. exists a, f. auto.
Qed.

Lemma increment_NCO_intro c g a f lo :
  load (accu g) c = Some a -> load (fcw g) c = Some f ->
  load (sinetable g) (Z.shiftr ((a + f) mod 2 ^ 32) 16) = Some lo ->
  increment_NCO c g =
    Some (lo, with_accu (<[Z.to_nat c := (a + f) mod 2 ^ 32]> (accu g)) g).
Proof.
  intros Ha Hf Hlo. unfold increment_NCO. rewrite Ha, Hf. cbn.
  pose proof Ha as Hb. apply load_Some in Hb as [Hb _].
  rewrite (store_in_bounds _ _ _ Hb). cbn.
  rewrite (load_insert_eq _ _ _ Hb). cbn.
  rewrite store_in_bounds by (rewrite length_insert; exact Hb).
  cbn. rewrite list_insert_insert_eq, accu_step.
  rewrite (load_insert_eq _ _ _ Hb). cbn. rewrite Hlo. reflexivity.
Qed.

(** On well-formed globals and a valid channel the step succeeds. *)
Lemma increment_NCO_total M c g :
  wf M g -> channel M c ->
  exists a f lo,
    load (accu g) c = Some a /\ load (fcw g) c = Some f /\
    Int.is_short lo /\
    increment_NCO c g =
      Some (lo, with_accu (<[Z.to_nat c := (a + f) mod 2 ^ 32]> (accu g)) g).
Proof.
  intros Hwf Hc. unfold channel in Hc.
  destruct (load_in_bounds (accu g) c) as [a Ha].
  { rewrite (wf_accu_size M g Hwf). exact Hc. }
  destruct (load_in_bounds (fcw g) c) as [f Hf].
  { rewrite (wf_fcw_size M g Hwf). exact Hc. }
  destruct (load_in_bounds (sinetable g) (Z.shiftr ((a + f) mod 2 ^ 32) 16))
    as [lo Hlo].
  { rewrite (wf_table_size M g Hwf), Z2Nat.id by (unfold SINETABSIZE; lia).
    apply phase_index, uint32_range. }
  exists a, f, lo. repeat split; try assumption.
  - exact (proj1 (load_Forall _ _ _ _ (wf_table M g Hwf) Hlo)).
  - exact (proj2 (load_Forall _ _ _ _ (wf_table M g Hwf) Hlo)).
  - now apply increment_NCO_intro.
Qed.

(** ** The mixer *)

Lemma downmixer_process_mix i q c g :
  downmixer_process i q c g =
  match increment_NCO c g with
  | Some (lo, g1) => Some (mix i q lo g1)
  | None => None
  end.
Proof.
  unfold downmixer_process.
  destruct (increment_NCO c g) as [[lo g1]|]; reflexivity.
Qed.

Lemma mix_frame i q lo g1 :
  let g' := (mix i q lo g1).2 in
  sinetable g' = sinetable g1 /\ samplerate g' = samplerate g1 /\
  fcw g' = fcw g1 /\ accu g' = accu g1 /\ trx g' = trx g1.
Proof. unfold mix. cbn. destruct (_ && _); cbn; auto. Qed.

(** The level shift after the mixing. *)
Lemma mix_sht i q lo g1 :
  Int.is_int (sht g1) ->
  sht (mix i q lo g1).2 =
  if (32767 <? Z.shiftr (Int.int (i * lo)) (sht g1)) && (sht g1 <? 15)
  then sht g1 + 1 else sht g1.
Proof.
  intros Hs. unfold mix. cbn.
  destruct (32767 <? _); cbn; [|reflexivity].
  destruct (sht g1 <? 15) eqn:E; cbn; [|reflexivity].
  apply Z.ltb_lt in E. apply int_id. unfold Int.is_int in *. lia.
Qed.

Lemma mix_wf M i q lo g1 : wf M g1 -> wf M (mix i q lo g1).2.
Proof.
  intros H. pose proof (mix_frame i q lo g1) as (Ht & _ & Hf & Ha & _).
  pose proof (mix_sht i q lo g1) as Hs. cbn zeta in *.
  destruct H as [H1 H2 H3 H4 H5 H6 H7].
  split; rewrite ?Ht, ?Hf, ?Ha; try assumption.
  rewrite Hs by (unfold Int.is_int; lia).
  destruct (32767 <? _); cbn; [|lia].
  destruct (sht g1 <? 15) eqn:E; cbn; [|lia].
  apply Z.ltb_lt in E. lia.
Qed.

Lemma with_accu_same g a : a = accu g -> with_accu a g = g.
Proof. intros ->. destruct g. reflexivity. Qed.

Lemma with_accu_wf M g c v :
  wf M g -> Int.is_uint32 v -> wf M (with_accu (<[c := v]> (accu g)) g).
Proof.
  intros [H1 H2 H3 H4 H5 H6 H7] Hv. split; cbn; try assumption.
  - now rewrite length_insert.
  - now apply Forall_insert.
Qed.

Lemma downmixer_process_wf M i q c g i' q' g' :
  wf M g -> downmixer_process i q c g = Some (i', q', g') -> wf M g'.
Proof.
  intros Hwf H. rewrite downmixer_process_mix in H.
  destruct (increment_NCO c g) as [[lo g1]|] eqn:E; [|discriminate].
  apply increment_NCO_inv in E as (a & f & _ & _ & _ & ->).
  assert (Hg : g' = (mix i q lo
            (with_accu (<[Z.to_nat c := (a + f) mod 2 ^ 32]> (accu g)) g)).2)
    by (apply (f_equal (fun r => match r with Some x => x.2 | None => g end))
          in H; symmetry; exact H).
  rewrite Hg. apply mix_wf, with_accu_wf; [assumption | apply uint32_range].
Qed.

Lemma downmixer_process_total M i q c g :
  wf M g -> channel M c -> exists r, downmixer_process i q c g = Some r.
Proof.
  intros Hwf Hc. rewrite downmixer_process_mix.
  destruct (increment_NCO_total M c g Hwf Hc) as (a & f & lo & _ & _ & _ & ->).
  eauto.
Qed.

(** ** The tuner *)

Lemma control_word_range fr rate : Int.is_uint32 (control_word fr rate).
Proof. apply uint32_range. Qed.

Lemma downmixer_setFrequency_inv T fr c g g' :
  downmixer_setFrequency T fr c g = Some g' ->
  0 <= c < Z.of_nat (length (fcw g)) /\
  sinetable g' = sinetable g /\ samplerate g' = samplerate g /\
  accu g' = accu g /\ sht g' = sht g /\
  trx g' = Cat (fr + T) 2 /\
  stdout g' = (if decide (fr = 10000) then stdout g
               else stdout g ++ [set_mixer_qrg fr c]) /\
  fcw g' = <[Z.to_nat c := control_word fr (samplerate g)]> (fcw g).
Proof.
  unfold downmixer_setFrequency. intros H.
  destruct (decide (fr = 10000)); cbn in H;
    (destruct (store (fcw g) c _) as [x|] eqn:E; [|discriminate]);
    cbn in H; injection H as <-; apply store_Some in E as [Hc ->];
    cbn; auto 10.
Qed.

Lemma downmixer_setFrequency_total T fr c g :
  0 <= c < Z.of_nat (length (fcw g)) ->
  exists g', downmixer_setFrequency T fr c g = Some g'.
Proof.
  intros Hc. unfold downmixer_setFrequency.
  destruct (decide (fr = 10000)); cbn;
    rewrite (store_in_bounds _ _ _ Hc); cbn; eauto.
Qed.

Lemma downmixer_setFrequency_wf M T fr c g g' :
  wf M g -> downmixer_setFrequency T fr c g = Some g' -> wf M g'.
Proof.
  intros [H1 H2 H3 H4 H5 H6 H7] H.
  apply downmixer_setFrequency_inv in H
    as (_ & Ht & _ & Ha & Hs & _ & _ & Hf).
  split; rewrite ?Ht, ?Ha, ?Hs, ?Hf; try assumption.
  - now rewrite length_insert.
  - apply Forall_insert; [assumption | apply control_word_range].
Qed.

(** ** Initialisation *)

Section Init.

Variable MAX_CLIENTS : nat.
Variables NB_SAMPLE_RATE TUNED_FREQUENCY : Z.
Variable sin : Double.double -> Double.double.

Lemma length_fill_sinetable n v : length (fill_sinetable sin n v) = n.
Proof.
  revert v. induction n as [|n IH]; intros v; cbn; [reflexivity|].
  now rewrite IH.
Qed.

Lemma fill_sinetable_short n v : Forall Int.is_short (fill_sinetable sin n v).
Proof.
  revert v. induction n as [|n IH]; intros v; cbn; constructor.
  - apply short_range.
  - apply IH.
Qed.

(** Entry [i] is the sample of the phase after [i] steps. *)
Lemma lookup_fill_sinetable n i v :
  (i < n)%nat ->
  fill_sinetable sin n v !! i =
  Some (sine_sample sin (Nat.iter i (fun v => Double.add v phase_step) v)).
Proof.
  revert i v. induction n as [|n IH]; intros i v Hi; [lia|].
  destruct i as [|i]; [reflexivity|].
  rewrite Nat.iter_succ_r. cbn [fill_sinetable].
  rewrite <- IH by lia. reflexivity.
Qed.

Lemma load_fill_sinetable i :
  0 <= i < SINETABSIZE ->
  load (fill_sinetable sin (Z.to_nat SINETABSIZE) Double.zero) i =
  Some (sine_sample sin (phase (Z.to_nat i))).
Proof.
  intros Hi. apply load_Some. rewrite length_fill_sinetable.
  split; [lia|]. apply lookup_fill_sinetable. lia.
Qed.

(** The loop over the clients: channels [i .. i+n-1] get the control word
    of 10 kHz and a zero accumulator, nothing else changes but the CAT
    variables. *)
Lemma default_frequency_spec n : forall i g,
  0 <= i ->
  i + Z.of_nat n <= Z.of_nat (length (fcw g)) ->
  i + Z.of_nat n <= Z.of_nat (length (accu g)) ->
  exists g',
    default_frequency TUNED_FREQUENCY n i g = Some g' /\
    sinetable g' = sinetable g /\ samplerate g' = samplerate g /\
    sht g' = sht g /\ stdout g' = stdout g /\
    trx g' = match n with
             | O => trx g
             | S _ => Cat (10000 + TUNED_FREQUENCY) 2
             end /\
    length (fcw g') = length (fcw g) /\
    length (accu g') = length (accu g) /\
    (forall c, load (fcw g') c =
               if (i <=? c) && (c <? i + Z.of_nat n)
               then Some (control_word 10000 (samplerate g))
               else load (fcw g) c) /\
    (forall c, load (accu g') c =
               if (i <=? c) && (c <? i + Z.of_nat n)
               then Some 0 else load (accu g) c).
Proof.
  induction n as [|n IH]; intros i g Hi Hf Ha.
  - exists g. cbn. repeat split; try reflexivity; intros c; compare_all.
  - cbn [default_frequency].
    destruct (downmixer_setFrequency_total TUNED_FREQUENCY 10000 i g)
      as [g1 Hg1]; [lia|].
    rewrite Hg1. cbn.
    apply downmixer_setFrequency_inv in Hg1
      as (_ & Ht & Hr & Hac & Hs & Hx & Ho & Hfc).
    rewrite decide_True in Ho by reflexivity.
    rewrite store_in_bounds by (rewrite Hac; lia). cbn.
    destruct (IH (i + 1) (with_accu (<[Z.to_nat i := 0]> (accu g1)) g1))
      as (g' & -> & Ht' & Hr' & Hs' & Ho' & Hx' & Hlf & Hla & Hf' & Ha').
    { lia. }
    { cbn. rewrite Hfc, length_insert. lia. }
    { cbn. rewrite length_insert, Hac. lia. }
    exists g'. cbn in *. rewrite Hfc, Hac, ?length_insert in *.
    repeat split; try congruence.
    + rewrite Hx'. destruct n; [exact Hx | reflexivity].
    + intros c. rewrite Hf', Hr. destruct (decide (c = i)) as [->|Hne].
      * rewrite load_insert_eq by lia. compare_all.
      * rewrite load_insert_ne by lia. compare_all.
    + intros c. rewrite Ha'. destruct (decide (c = i)) as [->|Hne].
      * rewrite load_insert_eq by lia. compare_all.
      * rewrite load_insert_ne by lia. compare_all.
Qed.

(** [downmixer_init] on globals whose arrays have their sizes. *)
Lemma downmixer_init_spec g :
  length (fcw g) = MAX_CLIENTS -> length (accu g) = MAX_CLIENTS ->
  exists g',
    downmixer_init MAX_CLIENTS NB_SAMPLE_RATE TUNED_FREQUENCY sin g
      = Some g' /\
    sinetable g' = fill_sinetable sin (Z.to_nat SINETABSIZE) Double.zero /\
    samplerate g' = NB_SAMPLE_RATE /\
    sht g' = sht g /\ stdout g' = stdout g /\
    trx g' = match MAX_CLIENTS with
             | O => trx g
             | S _ => Cat (10000 + TUNED_FREQUENCY) 2
             end /\
    length (fcw g') = MAX_CLIENTS /\ length (accu g') = MAX_CLIENTS /\
    (forall c, channel MAX_CLIENTS c ->
       load (fcw g') c = Some (control_word 10000 NB_SAMPLE_RATE) /\
       load (accu g') c = Some 0).
Proof.
  intros Hf Ha. unfold downmixer_init.
  generalize (fill_sinetable sin (Z.to_nat SINETABSIZE) Double.zero).
  intros t.
  destruct (default_frequency_spec MAX_CLIENTS 0
    (with_sinetable t (with_samplerate NB_SAMPLE_RATE g)))
    as (g' & -> & Ht' & Hr' & Hs' & Ho' & Hx' & Hlf & Hla & Hf' & Ha');
    cbn; try lia.
  exists g'. cbn in *. repeat split; try congruence.
  - rewrite Hf'. unfold channel in H. compare_all.
  - rewrite Ha'. unfold channel in H. compare_all.
Qed.

(** The globals after [downmixer_init], when there is a client. *)
Lemma downmixer_init_eq g :
  MAX_CLIENTS <> O ->
  length (fcw g) = MAX_CLIENTS -> length (accu g) = MAX_CLIENTS ->
  downmixer_init MAX_CLIENTS NB_SAMPLE_RATE TUNED_FREQUENCY sin g =
  Some {| sinetable := fill_sinetable sin (Z.to_nat SINETABSIZE) Double.zero;
          samplerate := NB_SAMPLE_RATE;
          fcw := replicate MAX_CLIENTS (control_word 10000 NB_SAMPLE_RATE);
          accu := replicate MAX_CLIENTS 0;
          sht := sht g;
          trx := Cat (10000 + TUNED_FREQUENCY) 2;
          stdout := stdout g |}.
Proof.
  intros HM Hf Ha.
  destruct (downmixer_init_spec g Hf Ha)
    as (g' & -> & Ht & Hr & Hs & Ho & Hx & Hlf & Hla & Hch).
  destruct g' as [t r f a s x o]. cbn in *. subst t r s o.
  destruct MAX_CLIENTS as [|m] eqn:EM; [congruence|]. subst x.
  rewrite <- EM in *. do 2 f_equal.
  - apply list_eq_load; [now rewrite length_replicate|].
    intros c Hc. rewrite Hlf in Hc.
    rewrite (proj1 (Hch c Hc)). symmetry. now apply load_replicate.
  - apply list_eq_load; [now rewrite length_replicate|].
    intros c Hc. rewrite Hla in Hc.
    rewrite (proj2 (Hch c Hc)). symmetry. now apply load_replicate.
Qed.

End Init.

(** ** Runs *)

Lemma Forall_load (P : Z -> Prop) (a : list Z) :
  (forall i x, load a i = Some x -> P x) -> Forall P a.
Proof.
  intros H. apply Forall_lookup. intros i x Hx.
  apply (H (Z.of_nat i)). apply load_Some. rewrite Nat2Z.id.
  split; [|assumption]. apply lookup_lt_Some in Hx. lia.
Qed.

Section Runs.

Variable MAX_CLIENTS : nat.
Variables NB_SAMPLE_RATE TUNED_FREQUENCY : Z.
Variable sin : Double.double -> Double.double.

Abbreviation M := MAX_CLIENTS.
Abbreviation exec' := (exec M NB_SAMPLE_RATE TUNED_FREQUENCY sin).
Abbreviation run' := (run M NB_SAMPLE_RATE TUNED_FREQUENCY sin).

Lemma program_start_wf c : wf M (program_start M c).
Proof.
  split; cbn [program_start sinetable fcw accu sht].
  - apply length_replicate.
  - apply Forall_replicate. unfold Int.is_short. lia.
  - apply length_replicate.
  - apply Forall_replicate. unfold Int.is_uint32. lia.
  - apply length_replicate.
  - apply Forall_replicate. unfold Int.is_uint32. lia.
  - lia.
Qed.

Lemma load_start_table c i :
  0 <= i < SINETABSIZE -> load (sinetable (program_start M c)) i = Some 0.
Proof.
  intros Hi. cbn [program_start sinetable]. apply load_replicate.
  rewrite Z2Nat.id; unfold SINETABSIZE in *; lia.
Qed.

Lemma downmixer_init_wf g g' :
  wf M g ->
  downmixer_init M NB_SAMPLE_RATE TUNED_FREQUENCY sin g = Some g' ->
  wf M g'.
Proof.
  intros [H1 H2 H3 H4 H5 H6 H7] H.
  destruct (downmixer_init_spec M NB_SAMPLE_RATE TUNED_FREQUENCY sin g H3 H5)
    as (g1 & E & Ht & _ & Hs & _ & _ & Hlf & Hla & Hch).
  rewrite E in H. injection H as <-.
  split; rewrite ?Ht, ?Hs; try assumption.
  - apply length_fill_sinetable.
  - apply fill_sinetable_short.
  - apply Forall_load. intros i x Hx.
    destruct (Hch i) as [Hf _].
    { apply load_Some in Hx as [Hx _]. unfold channel. lia. }
    rewrite Hf in Hx. injection Hx as <-. apply control_word_range.
  - apply Forall_load. intros i x Hx.
    destruct (Hch i) as [_ Ha].
    { apply load_Some in Hx as [Hx _]. unfold channel. lia. }
    rewrite Ha in Hx. injection Hx as <-. unfold Int.is_uint32. lia.
Qed.

Lemma exec_wf c g o g' : wf M g -> exec' c g = Some (o, g') -> wf M g'.
Proof.
  intros Hwf. destruct c as [|fr n|i q n]; cbn [exec].
  - destruct (downmixer_init _ _ _ _ g) as [g1|] eqn:E; [|discriminate].
    cbn. intros [= _ <-]. eapply downmixer_init_wf; eassumption.
  - destruct (downmixer_setFrequency _ fr n g) as [g1|] eqn:E;
      [|discriminate].
    cbn. intros [= _ <-]. eapply downmixer_setFrequency_wf; eassumption.
  - destruct (downmixer_process i q n g) as [[[i' q'] g1]|] eqn:E;
      [|discriminate].
    cbn. intros [= _ <-]. eapply downmixer_process_wf; eassumption.
Qed.

Lemma exec_total c g :
  wf M g -> valid_call M c -> exists r, exec' c g = Some r.
Proof.
  intros Hwf Hc. destruct c as [|fr n|i q n]; cbn [exec].
  - destruct (downmixer_init_spec M NB_SAMPLE_RATE TUNED_FREQUENCY sin g)
      as (g1 & -> & _); [apply Hwf ..|]. cbn. eauto.
  - destruct Hc as [_ Hc].
    destruct (downmixer_setFrequency_total TUNED_FREQUENCY fr n g)
      as [g1 ->]; [rewrite (wf_fcw_size M g Hwf); exact Hc|]. cbn. eauto.
  - destruct Hc as (_ & _ & Hc).
    destruct (downmixer_process_total M i q n g Hwf Hc) as [[[i' q'] g1] ->].
    cbn. eauto.
Qed.

Lemma run_cons c cs g :
  run' (c :: cs) g =
  match exec' c g with
  | Some (o, g1) =>
      match run' cs g1 with
      | Some (os, g2) =>
          Some (match o with Some s => s :: os | None => os end, g2)
      | None => None
      end
  | None => None
  end.
Proof.
  cbn [run]. destruct (exec' c g) as [[o g1]|]; [|reflexivity].
  cbn. destruct (run' cs g1) as [[os g2]|]; reflexivity.
Qed.

Lemma run_wf cs : forall g os g',
  wf M g -> run' cs g = Some (os, g') -> wf M g'.
Proof.
  induction cs as [|c cs IH]; intros g os g' Hwf H.
  - injection H as _ <-. assumption.
  - rewrite run_cons in H.
    destruct (exec' c g) as [[o g1]|] eqn:E; [|discriminate].
    destruct (run' cs g1) as [[os1 g2]|] eqn:E'; [|discriminate].
    injection H as _ <-. eapply IH; [|eassumption].
    eapply exec_wf; eassumption.
Qed.

(** A run of valid calls from well-formed globals returns. *)
Lemma run_total cs : forall g,
  wf M g -> Forall (valid_call M) cs -> exists r, run' cs g = Some r.
Proof.
  induction cs as [|c cs IH]; intros g Hwf Hcs.
  - cbn. eauto.
  - inversion Hcs as [|? ? Hc Hcs']; subst. rewrite run_cons.
    destruct (exec_total c g Hwf Hc) as [[o g1] E]. rewrite E.
    destruct (IH g1 (exec_wf _ _ _ _ Hwf E) Hcs') as [[os g2] ->]. eauto.
Qed.

(** The level shift along one call and along a run. *)
Lemma exec_sht c g o g' :
  Int.is_int (sht g) -> exec' c g = Some (o, g') ->
  sht g <= sht g' /\ (sht g <= 15 -> sht g' <= 15) /\
  (15 <= sht g -> sht g' = sht g).
Proof.
  intros Hs. destruct c as [|fr n|i q n]; cbn [exec].
  - destruct (downmixer_init _ _ _ _ g) as [g1|] eqn:E; [|discriminate].
    cbn. intros [= _ <-]. unfold downmixer_init in E.
    revert E. generalize (fill_sinetable sin (Z.to_nat SINETABSIZE) Double.zero).
    intros t E.
    assert (Hd : forall k j h h', default_frequency TUNED_FREQUENCY k j h
                   = Some h' -> sht h' = sht h).
    { clear. induction k as [|k IH]; intros j h h' H; cbn in H.
      - now injection H as <-.
      - destruct (downmixer_setFrequency _ _ j h) as [h1|] eqn:E1;
          [|discriminate]. cbn in H.
        destruct (store (accu h1) j 0) as [a|]; [|discriminate]. cbn in H.
        apply IH in H. cbn in H.
        apply downmixer_setFrequency_inv in E1 as (_&_&_&_&Hs&_). lia. }
    apply Hd in E. cbn in E. lia.
  - destruct (downmixer_setFrequency _ fr n g) as [g1|] eqn:E;
      [|discriminate].
    cbn. intros [= _ <-].
    apply downmixer_setFrequency_inv in E as (_&_&_&_&Hs'&_). lia.
  - rewrite downmixer_process_mix.
    destruct (increment_NCO n g) as [[lo g1]|] eqn:E; [|discriminate].
    apply increment_NCO_inv in E as (a & f & _ & _ & _ & ->).
    pose proof (mix_sht i q lo
      (with_accu (<[Z.to_nat n := (a + f) mod 2 ^ 32]> (accu g)) g) Hs)
      as Hm.
    destruct (mix i q lo _) as [[i' q'] g2].
    cbn. intros [= _ <-]. cbn [snd sht with_accu] in Hm. rewrite Hm.
    compare_all.
Qed.

End Runs.

(** [Int.short] keeps the low 16 bits. *)
Lemma short_low_bits z : Int.short z mod 2 ^ 16 = z mod 2 ^ 16.
Proof.
  unfold Int.short, Int.signed. change (2 ^ (16 - 1)) with 32768.
  change (2 ^ 16) with 65536.
  rewrite Zminus_mod, Zmod_mod, <- Zminus_mod. f_equal. lia.
Qed.

(** ** The zero offset *)

Lemma control_word_zero rate : control_word 0 rate = 0.
Proof.
  unfold control_word.
  change (Double.mul (Double.of_int 0) p232) with (S754_zero false).
  destruct (Double.of_int rate); reflexivity.
Qed.

Section ZeroOffset.

Variable MAX_CLIENTS : nat.
Variables NB_SAMPLE_RATE TUNED_FREQUENCY : Z.
Variable sin : Double.double -> Double.double.

Abbreviation run' := (run MAX_CLIENTS NB_SAMPLE_RATE TUNED_FREQUENCY sin).

Lemma run_app cs1 cs2 g :
  run' (cs1 ++ cs2) g =
  match run' cs1 g with
  | Some (os1, g1) =>
      match run' cs2 g1 with
      | Some (os2, g2) => Some (os1 ++ os2, g2)
      | None => None
      end
  | None => None
  end.
Proof.
  revert g. induction cs1 as [|c cs1 IH]; intros g.
  - cbn [app run]. destruct (run' cs2 g) as [[os2 g2]|]; reflexivity.
  - rewrite <- app_comm_cons, !run_cons.
    destruct (exec _ _ _ _ c g) as [[o g1]|]; [|reflexivity].
    rewrite IH. destruct (run' cs1 g1) as [[os1 g2]|]; [|reflexivity].
    destruct (run' cs2 g2) as [[os2 g3]|]; [|reflexivity].
    destruct o; reflexivity.
Qed.

Abbreviation quiet := (silent MAX_CLIENTS NB_SAMPLE_RATE TUNED_FREQUENCY sin).

Hypothesis clients : MAX_CLIENTS <> O.
Hypothesis sin_zero : sin Double.zero = Double.zero.

Lemma tune_to_zero c :
  run' [Init; SetFrequency 0 0] (program_start MAX_CLIENTS c)
  = Some ([], quiet c).
Proof.
  rewrite run_cons. cbn [exec].
  rewrite downmixer_init_eq
    by (try assumption; cbn; apply length_replicate).
  cbn [mbind option_bind program_start sht stdout].
  rewrite run_cons. cbn [exec run].
  unfold downmixer_setFrequency. rewrite decide_False by discriminate.
  cbn [with_trx printf fcw sinetable samplerate accu sht trx stdout].
  rewrite store_in_bounds by (rewrite length_replicate; lia).
  rewrite control_word_zero. reflexivity.
Qed.

Lemma silent_table c : load (sinetable (quiet c)) 0 = Some 0.
Proof.
  cbn [silent sinetable].
  rewrite load_fill_sinetable by (unfold SINETABSIZE; lia).
  change (phase (Z.to_nat 0)) with Double.zero.
  unfold sine_sample. rewrite sin_zero. reflexivity.
Qed.

Lemma silent_step c i q :
  downmixer_process i q 0 (quiet c) = Some (0, 0, quiet c).
Proof.
  rewrite downmixer_process_mix.
  rewrite (increment_NCO_intro 0 (quiet c) 0 0 0).
  - replace (with_accu _ (quiet c)) with (quiet c).
    + unfold mix. rewrite !Z.mul_0_r. reflexivity.
    + symmetry. apply with_accu_same. unfold silent. cbn [accu].
      apply list_insert_id, lookup_replicate_2. lia.
  - cbn [silent accu]. apply load_replicate. lia.
  - cbn [silent fcw]. apply (load_insert_eq _ 0).
    rewrite length_replicate. lia.
  - apply silent_table.
Qed.

Lemma silent_run c i q n :
  run' (repeat_process n i q 0) (quiet c)
  = Some (replicate n (0, 0), quiet c).
Proof.
  induction n as [|n IH]; [reflexivity|].
  unfold repeat_process in *. cbn [replicate].
  rewrite run_cons. cbn [exec]. rewrite silent_step.
  cbn [mbind option_bind]. rewrite IH. reflexivity.
Qed.

Lemma zero_offset_run c i q n :
  run' ([Init; SetFrequency 0 0] ++ repeat_process n i q 0)
    (program_start MAX_CLIENTS c)
  = Some (replicate n (0, 0), quiet c).
Proof. rewrite run_app, tune_to_zero, silent_run. reflexivity. Qed.

Lemma zero_offset_outputs c i q n os g' :
  run' ([Init; SetFrequency 0 0] ++ repeat_process n i q 0)
    (program_start MAX_CLIENTS c) = Some (os, g') ->
  os = replicate n (0, 0).
Proof. rewrite zero_offset_run. now intros [= <- _]. Qed.

End ZeroOffset.

(** ** One run of the program, evaluated *)

Lemma bench_table_load i :
  0 <= i < SINETABSIZE ->
  load Bench.table i = Some (sine_sample Libm.sin (phase (Z.to_nat i))).
Proof. apply load_fill_sinetable. Qed.

(** The table of the polynomial sine at an eighth and at three quarters of
    the period. *)
Lemma bench_table_8192 : load Bench.table 8192 = Some 23170.
Proof.
  rewrite bench_table_load by (unfold SINETABSIZE; lia).
  vm_compute. reflexivity.
Qed.

Lemma bench_table_49152 : load Bench.table 49152 = Some (-32768).
Proof.
  rewrite bench_table_load by (unfold SINETABSIZE; lia).
  vm_compute. reflexivity.
Qed.

(** At a quarter of the period the sine is 1 and the product 32768, which
    no [short] holds: the entry stored is -32768. *)
Lemma bench_table_16384 : load Bench.table 16384 = Some (-32768).
Proof.
  rewrite bench_table_load by (unfold SINETABSIZE; lia).
  vm_compute. reflexivity.
Qed.

Lemma bench_run_app cs1 cs2 g :
  Bench.run (cs1 ++ cs2) g =
  match Bench.run cs1 g with
  | Some (os1, g1) =>
      match Bench.run cs2 g1 with
      | Some (os2, g2) => Some (os1 ++ os2, g2)
      | None => None
      end
  | None => None
  end.
Proof. apply run_app. Qed.

Lemma bench_init : Bench.run [Init] Bench.start = Some ([], Bench.ready).
Proof.
  rewrite run_cons. cbn [exec run].
  rewrite downmixer_init_eq by (reflexivity || discriminate).
  unfold Bench.ready, Bench.table.
  generalize (fill_sinetable Libm.sin (Z.to_nat SINETABSIZE) Double.zero).
  intros t. reflexivity.
Qed.

Lemma bench_ready_wf : wf Bench.MAX_CLIENTS Bench.ready.
Proof.
  assert (H := run_wf Bench.MAX_CLIENTS Bench.NB_SAMPLE_RATE
                 Bench.TUNED_FREQUENCY Libm.sin [Init] Bench.start [] Bench.ready).
  apply H; [apply program_start_wf | apply bench_init].
Qed.

Lemma bench_tune fr :
  fr <> 10000 ->
  Bench.run [SetFrequency fr 0] Bench.ready
  = Some ([], Bench.tuned fr (control_word fr 2400000)).
Proof.
  intros Hfr. rewrite run_cons. cbn [exec run].
  unfold downmixer_setFrequency. rewrite decide_False by assumption.
  cbn [with_trx printf fcw sinetable samplerate accu sht trx stdout Bench.ready].
  rewrite store_in_bounds by (cbn; lia).
  unfold Bench.TUNED_FREQUENCY. rewrite Z.add_0_r. reflexivity.
Qed.

Lemma bench_tuned_wf fr :
  fr <> 10000 -> wf Bench.MAX_CLIENTS (Bench.tuned fr (control_word fr 2400000)).
Proof.
  intros Hfr.
  assert (H := run_wf Bench.MAX_CLIENTS Bench.NB_SAMPLE_RATE
                 Bench.TUNED_FREQUENCY Libm.sin [SetFrequency fr 0]
                 Bench.ready [] (Bench.tuned fr (control_word fr 2400000))).
  apply H; [apply bench_ready_wf | now apply bench_tune].
Qed.

(** Channel 0 at 300 kHz: the control word is [2^29], and the first step of
    the oscillator reads entry 8192. *)
Lemma bench_300k_word : control_word 300000 2400000 = 536870912.
Proof. vm_compute. reflexivity. Qed.

Lemma bench_300k :
  Bench.run [Init; SetFrequency 300000 0] Bench.start
  = Some ([], Bench.tuned 300000 536870912).
Proof.
  rewrite (bench_run_app [Init] [SetFrequency 300000 0]), bench_init.
  rewrite bench_tune by discriminate. rewrite bench_300k_word. reflexivity.
Qed.

Lemma bench_300k_wf : wf Bench.MAX_CLIENTS (Bench.tuned 300000 536870912).
Proof. rewrite <- bench_300k_word. now apply bench_tuned_wf. Qed.

Lemma bench_300k_NCO :
  increment_NCO 0 (Bench.tuned 300000 536870912)
  = Some (23170, with_accu [536870912; 0] (Bench.tuned 300000 536870912)).
Proof.
  rewrite (increment_NCO_intro 0 _ 0 536870912 23170);
    [reflexivity | reflexivity | reflexivity | exact bench_table_8192].
Qed.

Lemma bench_300k_process i q :
  downmixer_process i q 0 (Bench.tuned 300000 536870912)
  = Some (mix i q 23170
            (with_accu [536870912; 0] (Bench.tuned 300000 536870912))).
Proof. rewrite downmixer_process_mix, bench_300k_NCO. reflexivity. Qed.

Lemma bench_300k_quiet i q :
  (32767 <? Z.shiftr (Int.int (i * 23170)) 10) = false ->
  downmixer_process i q 0 (Bench.tuned 300000 536870912)
  = Some (Int.short (Z.shiftr (Int.int (i * 23170)) 10),
          Int.short (Z.shiftr (Int.int (q * 23170)) 10),
          with_accu [536870912; 0] (Bench.tuned 300000 536870912)).
Proof.
  intros H. rewrite bench_300k_process. unfold mix.
  cbn [sht with_accu Bench.tuned]. rewrite H. reflexivity.
Qed.

Lemma bench_300k_loud i q :
  (32767 <? Z.shiftr (Int.int (i * 23170)) 10) = true ->
  downmixer_process i q 0 (Bench.tuned 300000 536870912)
  = Some (Int.short (Z.shiftr (Int.int (i * 23170)) 10),
          Int.short (Z.shiftr (Int.int (q * 23170)) 10),
          Bench.shifted 300000 536870912).
Proof.
  intros H. rewrite bench_300k_process. unfold mix.
  cbn [sht with_accu Bench.tuned]. rewrite H. reflexivity.
Qed.

(** ** Double arithmetic

    What the conversion to the control word needs of the IEEE operations:
    integers of at most 53 digits convert exactly, a product with [2^32]
    is exact, and a quotient is rounded to one of its two neighbours. *)

Lemma digits2_pos_bounds p :
  2 ^ (Zpos (digits2_pos p) - 1) <= Zpos p < 2 ^ Zpos (digits2_pos p).
Proof.
  induction p as [p IH|p IH|]; cbn [digits2_pos];
    rewrite ?Pos2Z.inj_succ.
  - replace (Z.succ (Zpos (digits2_pos p)) - 1)
      with (Z.succ (Zpos (digits2_pos p) - 1)) by lia.
    rewrite !Z.pow_succ_r by lia. lia.
  - replace (Z.succ (Zpos (digits2_pos p)) - 1)
      with (Z.succ (Zpos (digits2_pos p) - 1)) by lia.
    rewrite !Z.pow_succ_r by lia. lia.
  - cbn. lia.
Qed.

Lemma digits2_pos_unique p d :
  2 ^ (d - 1) <= Zpos p < 2 ^ d -> Zpos (digits2_pos p) = d.
Proof.
  intros [H1 H2]. pose proof (digits2_pos_bounds p) as [H3 H4].
  set (d' := Zpos (digits2_pos p)) in *.
  assert (0 < d).
  { destruct (Z.lt_trichotomy d 0) as [Hd|[Hd|Hd]]; [|subst d; cbn in H2; lia|lia].
    rewrite Z.pow_neg_r in H2 by lia. lia. }
  destruct (Z.lt_trichotomy d' d) as [Hd|[Hd|Hd]]; [|assumption|].
  - assert (2 ^ d' <= 2 ^ (d - 1)) by (apply Z.pow_le_mono_r; lia). lia.
  - assert (2 ^ d <= 2 ^ (d' - 1)) by (apply Z.pow_le_mono_r; lia). lia.
Qed.

Lemma iter_pos_nat {A} (f : A -> A) p x :
  SpecFloat.iter_pos f p x = Nat.iter (Pos.to_nat p) f x.
Proof.
  revert x. induction p as [p IH|p IH|]; intros x; cbn [SpecFloat.iter_pos].
  - rewrite !IH, Pos2Nat.inj_xI, <- Nat.iter_succ_r, <- Nat.iter_add.
    f_equal. lia.
  - rewrite !IH, Pos2Nat.inj_xO, <- Nat.iter_add. f_equal. lia.
  - reflexivity.
Qed.

Lemma shr_1_exact z :
  0 <= z ->
  shr_1 (Build_shr_record (2 * z) false false) = Build_shr_record z false false.
Proof. intros Hz. destruct z; [reflexivity | reflexivity | lia]. Qed.

Lemma iter_shr_1_exact n : forall z,
  0 <= z ->
  Nat.iter n shr_1 (Build_shr_record (z * 2 ^ Z.of_nat n) false false)
  = Build_shr_record z false false.
Proof.
  induction n as [|n IH]; intros z Hz.
  - cbn. now rewrite Z.mul_1_r.
  - rewrite Nat.iter_succ, Nat2Z.inj_succ, Z.pow_succ_r by lia.
    replace (z * (2 * 2 ^ Z.of_nat n)) with (2 * z * 2 ^ Z.of_nat n) by lia.
    rewrite IH by lia. now apply shr_1_exact.
Qed.

(** Shifting an exact multiple of [2^j] right by [j] digits loses nothing. *)
Lemma shr_exact z e j :
  0 <= z -> 0 <= j ->
  shr (Build_shr_record (z * 2 ^ j) false false) e j
  = (Build_shr_record z false false, e + j).
Proof.
  intros Hz Hj. unfold shr. destruct j as [|p|p]; [| |lia].
  - now rewrite Z.mul_1_r, Z.add_0_r.
  - rewrite iter_pos_nat.
    rewrite <- (positive_nat_Z p) at 1. now rewrite iter_shr_1_exact.
Qed.

Lemma Zdigits2_bounds z d :
  0 < z -> (Zdigits2 z = d <-> 2 ^ (d - 1) <= z < 2 ^ d).
Proof.
  intros Hz. destruct z as [|p|p]; try lia. cbn [Zdigits2]. split.
  - intros <-. apply digits2_pos_bounds.
  - apply digits2_pos_unique.
Qed.

Lemma fexp_normal e : -1021 <= e -> fexp 53 1024 e = e - 53.
Proof. intros H. unfold fexp, emin. lia. Qed.

(** A number [m * 2^j] with a mantissa [m] of 53 digits is a double, if its
    exponent is in range: rounding it changes nothing. *)
Lemma binary_round_aux_exact s m j e :
  Zpos (digits2_pos m) = 53 -> 0 <= j -> -1074 <= e <= 971 ->
  binary_round_aux 53 1024 s (Zpos m * 2 ^ j) (e - j) loc_Exact
  = S754_finite s m e.
Proof.
  intros Hm Hj He. unfold binary_round_aux, shr_fexp.
  assert (Hd : Zdigits2 (Zpos m * 2 ^ j) = 53 + j).
  { pose proof (digits2_pos_bounds m) as Hb. rewrite Hm in Hb.
    assert (0 < 2 ^ j) by (apply Z.pow_pos_nonneg; lia).
    apply Zdigits2_bounds; [lia|].
    replace (53 + j - 1) with (52 + j) by lia.
    rewrite !Z.pow_add_r by lia. change (53 - 1) with 52 in Hb. nia. }
  rewrite Hd. replace (53 + j + (e - j)) with (53 + e) by lia.
  rewrite fexp_normal by lia. replace (53 + e - 53 - (e - j)) with j by lia.
  cbn [shr_record_of_loc]. rewrite shr_exact by lia.
  cbn [shr_m loc_of_shr_record round_nearest_even Zdigits2].
  rewrite Hm, fexp_normal by lia.
  replace (53 + (e - j + j) - 53 - (e - j + j)) with 0 by lia.
  cbn [shr shr_m shr_record_of_loc].
  replace (e - j + j) with e by lia.
  replace (e <=? 1024 - 53) with true by (symmetry; apply Z.leb_le; lia).
  reflexivity.
Qed.

Lemma iter_xO p k : Zpos (Pos.iter xO p k) = Zpos p * 2 ^ Zpos k.
Proof.
  induction k as [|k IH] using Pos.peano_ind.
  - cbn. lia.
  - rewrite Pos.iter_succ, Pos2Z.inj_xO, IH, Pos2Z.inj_succ.
    rewrite Z.pow_succ_r by lia. lia.
Qed.

Lemma normal_bounds m : Double.normal m <-> 2 ^ 52 <= Zpos m < 2 ^ 53.
Proof.
  unfold Double.normal. split.
  - intros H. pose proof (digits2_pos_bounds m) as Hb. now rewrite H in Hb.
  - intros H. apply (digits2_pos_unique m 53). exact H.
Qed.

(** [(double)z] is exact for an integer of at most 53 digits. *)
Lemma of_int_exact z :
  z <> 0 -> Z.abs z < 2 ^ 53 ->
  exists m e,
    Double.of_int z = S754_finite (z <? 0) m e /\
    Double.normal m /\ -52 <= e <= 0 /\ Zpos m = Z.abs z * 2 ^ (- e).
Proof.
  intros Hz Hlt.
  assert (Hpos : forall s p, Zpos p < 2 ^ 53 ->
    exists m e, binary_round 53 1024 s p 0 = S754_finite s m e /\
      Double.normal m /\ -52 <= e <= 0 /\ Zpos m = Zpos p * 2 ^ (- e)).
  { clear. intros s p Hp. unfold binary_round.
    pose proof (digits2_pos_bounds p) as Hb.
    set (d := Zpos (digits2_pos p)) in *.
    assert (Hd : 1 <= d <= 53).
    { split; [subst d; lia|].
      destruct (Z_le_gt_dec d 53) as [H|H]; [assumption|].
      assert (2 ^ 53 <= 2 ^ (d - 1)) by (apply Z.pow_le_mono_r; lia). lia. }
    rewrite Z.add_0_r, fexp_normal by lia. unfold shl_align.
    destruct (d - 53 - 0) as [|k|k] eqn:Ek; [|lia|].
    - assert (d = 53) by lia.
      assert (Hm : Double.normal p) by (unfold Double.normal; fold d; lia).
      exists p, 0. split; [|split; [|split]].
      + pose proof (binary_round_aux_exact s p 0 0) as Hr.
        rewrite Z.mul_1_r in Hr. apply Hr; [exact Hm|lia|lia].
      + exact Hm.
      + lia.
      + cbn. lia.
    - assert (Hk : Zpos k = 53 - d) by lia.
      assert (Hm : Double.normal (Pos.iter xO p k)).
      { apply normal_bounds. rewrite iter_xO, Hk.
        assert (H52 : 2 ^ 52 = 2 ^ (d - 1) * 2 ^ (53 - d))
          by (rewrite <- Z.pow_add_r by lia; f_equal; lia).
        assert (H53 : 2 ^ 53 = 2 ^ d * 2 ^ (53 - d))
          by (rewrite <- Z.pow_add_r by lia; f_equal; lia).
        assert (0 < 2 ^ (53 - d)) by (apply Z.pow_pos_nonneg; lia).
        rewrite H52, H53. nia. }
      exists (Pos.iter xO p k), (d - 53). split; [|split; [|split]].
      + pose proof (binary_round_aux_exact s (Pos.iter xO p k) 0 (d - 53))
          as Hr.
        rewrite Z.mul_1_r, Z.sub_0_r in Hr. apply Hr; [exact Hm|lia|lia].
      + exact Hm.
      + lia.
      + rewrite iter_xO, Hk. f_equal. f_equal. lia. }
  unfold Double.of_int, Double.prec, Double.emax, binary_normalize.
  destruct z as [|p|p]; [congruence| |].
  - destruct (Hpos false p Hlt) as (m & e & -> & H). exists m, e. auto.
  - destruct (Hpos true p Hlt) as (m & e & -> & H). exists m, e. auto.
Qed.

Lemma p232_eq : p232 = S754_finite false 4503599627370496 (-20).
Proof. reflexivity. Qed.

(** Multiplying by [2^32] adds 32 to the exponent. *)
Lemma mul_p232 s m e :
  Double.normal m -> -1000 <= e <= 900 ->
  Double.mul (S754_finite s m e) p232 = S754_finite s m (e + 32).
Proof.
  intros Hm He. rewrite p232_eq.
  unfold Double.mul, Double.prec, Double.emax, SFmul.
  rewrite xorb_false_r, Pos2Z.inj_mul.
  change (Zpos 4503599627370496) with (2 ^ 52).
  replace (e + -20) with (e + 32 - 52) by lia.
  apply binary_round_aux_exact; [exact Hm | lia | lia].
Qed.

Lemma loc_of_shr_record_of_loc m l :
  loc_of_shr_record (shr_record_of_loc m l) = l.
Proof. destruct l as [|[]]; reflexivity. Qed.

Lemma shr_m_of_loc m l : shr_m (shr_record_of_loc m l) = m.
Proof. destruct l as [|[]]; reflexivity. Qed.

(** Rounding to nearest even moves a mantissa up by at most one, and only
    from the middle of the interval on. *)
Lemma round_nearest_even_bounds m l :
  m <= round_nearest_even m l <= m + 1 /\
  (round_nearest_even m l = m + 1 ->
   l = loc_Inexact Eq \/ l = loc_Inexact Gt).
Proof.
  destruct l as [|[]]; cbn; try destruct (Z.even m); split; try lia; auto;
    intros; lia.
Qed.

(** The location that the division computes from the remainder [r]. *)
Lemma new_location_upper m r c :
  0 <= r -> new_location m r = loc_Inexact c -> c <> Lt -> m <= 2 * r.
Proof.
  intros Hr. unfold new_location, new_location_even, new_location_odd.
  destruct (Z.even m); destruct (r =? 0); try discriminate.
  - intros [= <-] Hc. destruct (2 * r ?= m) eqn:E; [| congruence |].
    + apply Z.compare_eq in E. lia.
    + apply Z.compare_gt_iff in E. lia.
  - destruct (2 * r + 1 ?= m) eqn:E; intros [= <-] Hc; try congruence.
    apply Z.compare_gt_iff in E. lia.
Qed.

(** One step to the right: the mantissa is halved, and it is rounded up
    afterwards only if its last digit was 1. *)
Lemma shr_1_round q l :
  2 <= q ->
  let mrs := shr_1 (shr_record_of_loc q l) in
  let M := round_nearest_even (shr_m mrs) (loc_of_shr_record mrs) in
  q / 2 <= M <= q / 2 + 1 /\ (M = q / 2 + 1 -> Z.odd q = true).
Proof.
  intros Hq. rewrite <- Z.div2_div.
  destruct q as [|[p|p|]|]; try lia; destruct l as [|[]]; cbn;
    repeat match goal with
      | |- context [if ?b then _ else _] => destruct b
      end;
    split; try lia; auto; intros; lia.
Qed.

(** The last step of a rounding: a mantissa that the rounding carried to
    [2^53] goes back to 53 digits. *)
Lemma renormalize s M' E :
  2 ^ 52 <= M' <= 2 ^ 53 -> -1074 <= E <= 970 ->
  exists M E',
    (let '(mrs, e) := shr_fexp 53 1024 M' E loc_Exact in
     match shr_m mrs with
     | Z0 => S754_zero s
     | Zpos m => if e <=? 1024 - 53 then S754_finite s m e
                 else S754_infinity s
     | Zneg _ => S754_nan
     end) = S754_finite s M E' /\
    Double.normal M /\ E <= E' <= E + 1 /\ Zpos M * 2 ^ (E' - E) = M'.
Proof.
  intros HM HE. unfold shr_fexp.
  destruct (Z_lt_le_dec M' (2 ^ 53)) as [Hlt|Hge].
  - assert (Hd : Zdigits2 M' = 53) by (apply Zdigits2_bounds; [lia|]; exact (conj (proj1 HM) Hlt)).
    rewrite Hd, fexp_normal by lia.
    replace (53 + E - 53 - E) with 0 by lia. cbn [shr shr_record_of_loc shr_m].
    destruct M' as [|m|m]; try lia.
    replace (E <=? 1024 - 53) with true by (symmetry; apply Z.leb_le; lia).
    exists m, E. rewrite Z.sub_diag, Z.mul_1_r.
    repeat split; try lia. exact Hd.
  - assert (M' = 2 ^ 53) by lia. subst M'.
    assert (Hd : Zdigits2 (2 ^ 53) = 54) by reflexivity.
    rewrite Hd, fexp_normal by lia.
    replace (54 + E - 53 - E) with 1 by lia. cbn [shr_record_of_loc].
    change (2 ^ 53) with (2 ^ 52 * 2 ^ 1) at 1.
    rewrite shr_exact by lia. cbn [shr_m].
    change (2 ^ 52) with (Zpos 4503599627370496) at 1. cbn iota.
    replace (E + 1 <=? 1024 - 53) with true by (symmetry; apply Z.leb_le; lia).
    exists 4503599627370496%positive, (E + 1).
    replace (E + 1 - E) with 1 by lia.
    repeat split; try lia; reflexivity.
Qed.

(** Rounding a mantissa [q] of 53 or 54 digits with location [l]: with
    [n] the number of digits above 53, the result is [q / 2^n] or that plus
    one, and it is rounded up only from the middle on. *)
Lemma binary_round_aux_normal s q E l n :
  0 < q -> 0 <= n <= 1 -> Zdigits2 q = 53 + n -> -1074 <= E <= 969 ->
  exists M' M E',
    binary_round_aux 53 1024 s q E l = S754_finite s M E' /\
    Double.normal M /\ E + n <= E' <= E + n + 1 /\
    Zpos M * 2 ^ (E' - (E + n)) = M' /\
    q / 2 ^ n <= M' <= q / 2 ^ n + 1 /\
    (M' = q / 2 ^ n + 1 ->
     if n =? 0 then l = loc_Inexact Eq \/ l = loc_Inexact Gt
     else Z.odd q = true).
Proof.
  intros Hq0 Hn Hd HE. unfold binary_round_aux.
  assert (Hq : 2 ^ (52 + n) <= q < 2 ^ (53 + n)).
  { apply Zdigits2_bounds in Hd; [|assumption].
    now replace (53 + n - 1) with (52 + n) in Hd by lia. }
  assert (Hs : shr_fexp 53 1024 q E l =
               (if n =? 0 then shr_record_of_loc q l
                else shr_1 (shr_record_of_loc q l), E + n)).
  { unfold shr_fexp. rewrite Hd, fexp_normal by lia.
    replace (53 + n + E - 53 - E) with n by lia.
    destruct (Z.eq_dec n 0) as [->|Hn0].
    - cbn. now rewrite Z.add_0_r.
    - assert (n = 1) by lia. subst n. reflexivity. }
  rewrite Hs. clear Hs.
  set (mrs := if n =? 0 then _ else _).
  set (M' := round_nearest_even (shr_m mrs) (loc_of_shr_record mrs)).
  assert (HM' : q / 2 ^ n <= M' <= q / 2 ^ n + 1 /\
    (M' = q / 2 ^ n + 1 ->
     if n =? 0 then l = loc_Inexact Eq \/ l = loc_Inexact Gt
     else Z.odd q = true)).
  { subst M' mrs. destruct (Z.eq_dec n 0) as [->|Hn0].
    - cbn [Z.eqb]. rewrite shr_m_of_loc, loc_of_shr_record_of_loc.
      change (2 ^ 0) with 1. rewrite Z.div_1_r.
      apply round_nearest_even_bounds.
    - assert (n = 1) by lia. subst n. cbn [Z.eqb Pos.eqb].
      change (2 ^ 1) with 2. apply shr_1_round.
      change (2 ^ (52 + 1)) with 9007199254740992 in Hq. lia. }
  assert (Hr : 2 ^ 52 <= M' <= 2 ^ 53).
  { destruct HM' as [HM' _].
    assert (2 ^ 52 <= q / 2 ^ n < 2 ^ 53); [|lia].
    assert (0 < 2 ^ n) by (apply Z.pow_pos_nonneg; lia).
    rewrite !Z.pow_add_r in Hq by lia. split.
    - apply Z.div_le_lower_bound; lia.
    - apply Z.div_lt_upper_bound; lia. }
  destruct (renormalize s M' (E + n) Hr) as (M & E' & -> & HnM & HE' & Hv);
    [lia|].
  exists M', M, E'.
  split; [reflexivity|]. split; [assumption|]. split; [lia|].
  split; [assumption|]. exact HM'.
Qed.

(** The quotient of two normal doubles. With [n] (0 or 1) the number of
    digits that the integer quotient [m1 * 2^53 / m2] has above 53, the
    result is the quotient [m1 * 2^(53-n) / m2], or that plus one, at the
    exponent [e1 - e2 - 53 + n]; it is rounded up only if the remainder is
    at least half of the divisor. *)
Lemma div_normal s1 m1 e1 s2 m2 e2 :
  Double.normal m1 -> Double.normal m2 -> -1021 <= e1 - e2 <= 1020 ->
  exists n M' M E,
    Double.div (S754_finite s1 m1 e1) (S754_finite s2 m2 e2)
      = S754_finite (xorb s1 s2) M E /\
    0 <= n <= 1 /\
    2 ^ 52 <= Zpos m1 * 2 ^ (53 - n) / Zpos m2 /\
    Zpos m1 * 2 ^ (53 - n) / Zpos m2 <= M'
      <= Zpos m1 * 2 ^ (53 - n) / Zpos m2 + 1 /\
    (M' = Zpos m1 * 2 ^ (53 - n) / Zpos m2 + 1 ->
     Zpos m2 <= 2 * ((Zpos m1 * 2 ^ (53 - n)) mod Zpos m2)) /\
    Double.normal M /\
    e1 - e2 - 53 + n <= E <= e1 - e2 - 53 + n + 1 /\
    Zpos M * 2 ^ (E - (e1 - e2 - 53 + n)) = M'.
Proof.
  intros H1 H2 He.
  pose proof (proj1 (normal_bounds m1) H1) as B1.
  pose proof (proj1 (normal_bounds m2) H2) as B2.
  unfold Double.div, Double.prec, Double.emax, SFdiv, SFdiv_core_binary.
  cbn [Zdigits2]. unfold Double.normal in H1, H2. rewrite H1, H2.
  replace (53 + e1 - (53 + e2)) with (e1 - e2) by lia.
  rewrite fexp_normal by lia.
  replace (Z.min (e1 - e2 - 53) (e1 - e2)) with (e1 - e2 - 53) by lia.
  replace (e1 - e2 - (e1 - e2 - 53)) with 53 by lia. cbn iota.
  rewrite Z.shiftl_mul_pow2 by lia.
  set (N := Zpos m1 * 2 ^ 53).
  destruct (Z.div_eucl N (Zpos m2)) as [q r] eqn:Eqr.
  assert (Hq : q = N / Zpos m2) by (unfold Z.div; now rewrite Eqr).
  assert (Hr : r = N mod Zpos m2) by (unfold Z.modulo; now rewrite Eqr).
  pose proof (Z.div_mod N (Zpos m2) ltac:(lia)) as Hdm.
  pose proof (Z.mod_pos_bound N (Zpos m2) ltac:(lia)) as Hmb.
  rewrite <- Hq, <- Hr in Hdm. rewrite <- Hr in Hmb.
  assert (Bq : 2 ^ 52 <= q < 2 ^ 54).
  { change (2 ^ 52) with 4503599627370496 in *.
    change (2 ^ 53) with 9007199254740992 in *.
    change (2 ^ 54) with 18014398509481984. subst N. split.
    - destruct (Z_lt_le_dec q 4503599627370496) as [Hc|]; [|lia].
      assert (Zpos m2 * (q + 1) <= Zpos m2 * 4503599627370496)
        by (apply Z.mul_le_mono_nonneg_l; lia).
      nia.
    - destruct (Z_lt_le_dec q 18014398509481984) as [|Hc]; [lia|].
      assert (Zpos m2 * 18014398509481984 <= Zpos m2 * q)
        by (apply Z.mul_le_mono_nonneg_l; lia).
      nia. }
  destruct (Z_lt_le_dec q (2 ^ 53)) as [Hlt|Hge].
  - (* 53 digits *)
    destruct (binary_round_aux_normal (xorb s1 s2) q (e1 - e2 - 53)
                (new_location (Zpos m2) r) 0)
      as (M' & M & E & -> & HnM & HE & Hv & HM & Hup); try lia.
    { apply Zdigits2_bounds; [lia|]. change (53 + 0 - 1) with 52.
      change (53 + 0) with 53. lia. }
    exists 0, M', M, E. rewrite Z.sub_0_r. fold N. rewrite <- Hq, <- Hr.
    change (2 ^ 0) with 1 in HM. rewrite Z.div_1_r in HM, Hup.
    rewrite Z.add_0_r in *.
    split; [reflexivity|]. split; [lia|]. split; [lia|]. split; [lia|].
    split; [|split; [assumption|lia]].
    intros HM1. cbn [Z.eqb] in Hup.
    destruct (Hup HM1) as [Hl|Hl];
      apply new_location_upper in Hl; (lia || discriminate).
  - (* 54 digits *)
    destruct (binary_round_aux_normal (xorb s1 s2) q (e1 - e2 - 53)
                (new_location (Zpos m2) r) 1)
      as (M' & M & E & -> & HnM & HE & Hv & HM & Hup); try lia.
    { apply Zdigits2_bounds; [lia|]. change (53 + 1 - 1) with 53.
      change (53 + 1) with 54. lia. }
    exists 1, M', M, E. change (53 - 1) with 52.
    change (2 ^ 1) with 2 in HM, Hup. cbn [Z.eqb Pos.eqb] in Hup.
    set (N' := Zpos m1 * 2 ^ 52).
    assert (HN : N = 2 * N')
      by (subst N N'; change (2 ^ 53) with (2 * 2 ^ 52); lia).
    pose proof (Z.div_mod N' (Zpos m2) ltac:(lia)) as Hdm'.
    pose proof (Z.mod_pos_bound N' (Zpos m2) ltac:(lia)) as Hmb'.
    set (M0 := N' / Zpos m2) in *. set (R := N' mod Zpos m2) in *.
    assert (Hq2 : q / 2 = M0).
    { symmetry. apply Z.div_unique with (r := q - 2 * M0); nia. }
    rewrite Hq2 in HM, Hup.
    assert (2 ^ 52 <= M0).
    { rewrite <- Hq2. apply Z.div_le_lower_bound; [lia|].
      change (2 * 2 ^ 52) with (2 ^ 53). lia. }
    split; [reflexivity|]. split; [lia|]. split; [lia|]. split; [lia|].
    split; [|split; [assumption|lia]].
    intros HM1. specialize (Hup HM1).
    destruct (Z_lt_le_dec (2 * R) (Zpos m2)) as [Hsmall|]; [|lia].
    assert (Hq3 : q = 2 * M0).
    { rewrite Hq, HN. symmetry.
      apply Z.div_unique with (r := 2 * R); lia. }
    rewrite Hq3, Z.odd_mul in Hup. discriminate.
Qed.

(** The integer part of a finite double, from its mantissa and exponent. *)
Lemma trunc_finite s M E E0 M' :
  E0 <= E -> E0 <= 0 -> Zpos M * 2 ^ (E - E0) = M' ->
  Double.trunc (S754_finite s M E) = Some (cond_Zopp s (M' / 2 ^ (- E0))).
Proof.
  intros HE HE0 <-. unfold Double.trunc.
  assert (H0 : 0 < 2 ^ (E - E0)) by (apply Z.pow_pos_nonneg; lia).
  destruct E as [|k|k].
  - rewrite Z.sub_0_l, Z.div_mul by lia. now rewrite Z.mul_1_r.
  - replace (Zpos k - E0) with (Zpos k + - E0) by lia.
    rewrite Z.pow_add_r, Z.mul_assoc, Z.div_mul by lia.
    reflexivity.
  - assert (0 < 2 ^ Zpos k) by (apply Z.pow_pos_nonneg; lia).
    replace (- E0) with (Zpos k + (Zneg k - E0)) by lia.
    rewrite Z.pow_add_r, Z.div_mul_cancel_r by lia. reflexivity.
Qed.

(** Rounding the quotient [a / b] to a double and then cutting it to an
    integer gives the integer quotient, as long as [a] has at most 53
    digits: the rounding cannot reach the next integer. Here [N / m2] is
    the quotient scaled by [K] to a mantissa [M0] of 53 digits, and [M'] is
    that mantissa after rounding. *)
Lemma trunc_of_rounded a b N m2 P K M' :
  0 < b -> 0 <= a < 2 ^ 53 -> 0 < P -> 0 < K -> 0 < m2 ->
  N = a * P -> m2 * K = b * P ->
  2 ^ 52 <= N / m2 ->
  N / m2 <= M' <= N / m2 + 1 ->
  (M' = N / m2 + 1 -> m2 <= 2 * (N mod m2)) ->
  M' / K = a / b.
Proof.
  intros Hb Ha HP HK Hm HN HmK H52 HM Hup.
  assert (Hab : a / b = N / m2 / K).
  { rewrite Z.div_div, HmK, HN by lia. now rewrite Z.div_mul_cancel_r by lia. }
  rewrite Hab.
  pose proof (Z.div_mod N m2 ltac:(lia)) as Hdm.
  pose proof (Z.mod_pos_bound N m2 ltac:(lia)) as Hmb.
  set (M0 := N / m2) in *. set (R := N mod m2) in *.
  destruct (Z.eq_dec M' M0) as [->|Hne]; [reflexivity|].
  assert (HM1 : M' = M0 + 1) by lia. specialize (Hup HM1). subst M'.
  pose proof (Z.div_mod M0 K ltac:(lia)) as Hdk.
  pose proof (Z.mod_pos_bound M0 K ltac:(lia)) as Hkb.
  set (c := M0 / K) in *. set (t := M0 mod K) in *.
  destruct (Z_lt_le_dec (t + 1) K) as [Hsmall|Hfull].
  - symmetry. apply Z.div_unique with (r := t + 1); lia.
  - exfalso. assert (Ht : M0 + 1 = K * (c + 1)) by lia.
    assert (Hc : ((c + 1) * b - a) * P = m2 - R) by nia.
    assert (0 < (c + 1) * b - a) by nia.
    assert (P <= m2 - R) by nia.
    change (2 ^ 52) with 4503599627370496 in *.
    change (2 ^ 53) with 9007199254740992 in *.
    assert (4503599627370496 * m2 <= M0 * m2) by nia.
    nia.
Qed.

Lemma pow2_split x y z : 0 <= y -> 0 <= z -> x = y + z -> 2 ^ x = 2 ^ y * 2 ^ z.
Proof. intros Hy Hz ->. now apply Z.pow_add_r. Qed.

(** The double quotient [(double)fr * 2^32 / (double)rate], cut to an
    integer, is the exact quotient rounded toward zero. *)
Lemma quotient_trunc fr rate :
  fr <> 0 -> Z.abs fr < 2 ^ 21 -> 0 < rate < 2 ^ 53 ->
  Double.trunc
    (Double.div (Double.mul (Double.of_int fr) p232) (Double.of_int rate))
  = Some (Z.quot (fr * 2 ^ 32) rate).
Proof.
  intros Hfr Hlt Hrate.
  destruct (of_int_exact fr) as (m1 & e1 & -> & Hn1 & He1 & Hv1);
    [assumption | change (2 ^ 21) with 2097152 in Hlt;
                  change (2 ^ 53) with 9007199254740992; lia |].
  destruct (of_int_exact rate) as (m2 & e2 & -> & Hn2 & He2 & Hv2);
    [lia | lia |].
  rewrite mul_p232 by (assumption || lia).
  assert (He1' : e1 <= -32).
  { destruct (Z_le_gt_dec e1 (-32)) as [|Hc]; [assumption|exfalso].
    assert (2 ^ (- e1) <= 2 ^ 31) by (apply Z.pow_le_mono_r; lia).
    apply normal_bounds in Hn1.
    change (2 ^ 21) with 2097152 in Hlt.
    change (2 ^ 31) with 2147483648 in *.
    change (2 ^ 52) with 4503599627370496 in *. nia. }
  destruct (div_normal (fr <? 0) m1 (e1 + 32) (rate <? 0) m2 e2)
    as (n & M' & M & E & -> & Hn & H52 & HM & Hup & _ & HE & Hv);
    [assumption | assumption | lia |].
  rewrite (trunc_finite _ M E (e1 + 32 - e2 - 53 + n) M') by (assumption || lia).
  replace (rate <? 0) with false by (symmetry; apply Z.ltb_ge; lia).
  rewrite xorb_false_r. f_equal.
  rewrite (trunc_of_rounded (Z.abs fr * 2 ^ 32) rate
             (Zpos m1 * 2 ^ (53 - n)) (Zpos m2) (2 ^ (- e1 + 21 - n))
             (2 ^ (- (e1 + 32 - e2 - 53 + n))) M');
    try assumption; try lia; try (apply Z.pow_pos_nonneg; lia).
  - destruct (Z.ltb_spec fr 0) as [Hneg|Hpos]; cbn [cond_Zopp].
    + rewrite Z.abs_neq by lia.
      rewrite <- Z.quot_div_nonneg by lia.
      rewrite <- Z.quot_opp_l by lia. f_equal. lia.
    + rewrite Z.abs_eq by lia. rewrite Z.quot_div_nonneg by lia. reflexivity.
  - rewrite Hv1, <- !Z.mul_assoc, <- !Z.pow_add_r by lia.
    f_equal. f_equal. lia.
  - rewrite Hv2, (Z.abs_eq rate), <- !Z.mul_assoc, <- !Z.pow_add_r by lia.
    f_equal. f_equal. lia.
Qed.

(** The control word of an offset below [2^21] Hz in magnitude: the exact
    quotient [fr * 2^32 / rate] rounded toward zero, modulo [2^32]. *)
Lemma control_word_quot fr rate :
  Z.abs fr < 2 ^ 21 -> 0 < rate < 2 ^ 53 ->
  control_word fr rate = Z.quot (fr * 2 ^ 32) rate mod 2 ^ 32.
Proof.
  intros Hfr Hrate. destruct (Z.eq_dec fr 0) as [->|Hne].
  - rewrite control_word_zero. reflexivity.
  - unfold control_word, Double.to_uint32, Double.cvttsd2si.
    rewrite quotient_trunc by assumption.
    assert (Hq : Z.abs (Z.quot (fr * 2 ^ 32) rate) <= Z.abs (fr * 2 ^ 32)).
    { rewrite <- (Z.quot_abs _ _) by lia.
      rewrite (Z.abs_eq rate) by lia.
      apply Z.quot_le_upper_bound; [lia|].
      assert (0 <= Z.abs (fr * 2 ^ 32)) by lia. nia. }
    rewrite Z.abs_mul in Hq.
    change (2 ^ 21) with 2097152 in Hfr.
    change (Z.abs (2 ^ 32)) with 4294967296 in Hq.
    change (2 ^ (64 - 1)) with 9223372036854775808.
    destruct (_ && _) eqn:Ec; [reflexivity|exfalso].
    apply andb_false_iff in Ec as [Ec|Ec];
      [apply Z.leb_gt in Ec | apply Z.ltb_ge in Ec]; lia.
Qed.

(** The integer part of a finite double with a positive exponent. *)
Lemma trunc_finite_up s M E E0 M' :
  0 <= E0 <= E -> Zpos M * 2 ^ (E - E0) = M' ->
  Double.trunc (S754_finite s M E) = Some (cond_Zopp s (M' * 2 ^ E0)).
Proof.
  intros HE <-. unfold Double.trunc.
  rewrite <- Z.mul_assoc, <- Z.pow_add_r by lia.
  replace (E - E0 + E0) with E by lia.
  destruct E as [|k|k]; try lia; reflexivity.
Qed.

(** The double quotient of an [int] offset and a positive [int] rate is
    finite; its integer part fits 64 bits and is within [2^11] of the exact
    quotient. *)
Lemma quotient_int fr rate :
  Int.is_int fr -> fr <> 0 -> 0 < rate < 2 ^ 31 ->
  exists t,
    Double.trunc
      (Double.div (Double.mul (Double.of_int fr) p232) (Double.of_int rate))
      = Some (cond_Zopp (fr <? 0) t) /\
    0 <= t /\ (t < 2 ^ 63 \/ (t = 2 ^ 63 /\ fr < 0)) /\
    Z.abs (t - Z.abs fr * 2 ^ 32 / rate) <= 2 ^ 11.
Proof.
  intros Hint Hfr Hrate. unfold Int.is_int in Hint.
  change (2 ^ 31) with 2147483648 in Hrate.
  destruct (of_int_exact fr) as (m1 & e1 & -> & Hn1 & He1 & Hv1);
    [assumption | change (2 ^ 53) with 9007199254740992; lia |].
  destruct (of_int_exact rate) as (m2 & e2 & -> & Hn2 & He2 & Hv2);
    [lia | change (2 ^ 53) with 9007199254740992; lia |].
  rewrite (Z.abs_eq rate) in Hv2 by lia.
  rewrite mul_p232 by (assumption || lia).
  assert (He1' : e1 <= -21).
  { destruct (Z_le_gt_dec e1 (-21)) as [|Hc]; [assumption|exfalso].
    assert (2 ^ (- e1) <= 2 ^ 20) by (apply Z.pow_le_mono_r; lia).
    apply normal_bounds in Hn1.
    change (2 ^ 20) with 1048576 in *.
    change (2 ^ 52) with 4503599627370496 in *. nia. }
  destruct (div_normal (fr <? 0) m1 (e1 + 32) (rate <? 0) m2 e2)
    as (n & M' & M & E & -> & Hn & H52 & HM & Hup & HnM & HE & Hv);
    [assumption | assumption | lia |].
  replace (rate <? 0) with false by (symmetry; apply Z.ltb_ge; lia).
  rewrite xorb_false_r.
  set (E0 := e1 + 32 - e2 - 53 + n) in *.
  set (a := Z.abs fr * 2 ^ 32).
  set (P := 2 ^ (- e1 + 21 - n)).
  assert (HP : 0 < P) by (apply Z.pow_pos_nonneg; lia).
  assert (HN : Zpos m1 * 2 ^ (53 - n) = a * P).
  { subst a P. rewrite Hv1, <- !Z.mul_assoc, <- !Z.pow_add_r by lia.
    f_equal. f_equal. lia. }
  assert (Ha : 0 < a <= 2 ^ 63 /\ (0 < fr -> a <= 2 ^ 63 - 2 ^ 32)).
  { subst a. change (2 ^ 32) with 4294967296.
    change (2 ^ 63) with 9223372036854775808. lia. }
  pose proof (proj1 (normal_bounds m2) Hn2) as B2.
  pose proof (proj1 (normal_bounds M) HnM) as BM.
  rewrite HN in *.
  pose proof (Z.div_mod (a * P) (Zpos m2) ltac:(lia)) as Hdm.
  pose proof (Z.mod_pos_bound (a * P) (Zpos m2) ltac:(lia)) as Hmb.
  set (M0 := a * P / Zpos m2) in *. set (R := (a * P) mod Zpos m2) in *.
  assert (HM54 : M' < 2 ^ 54).
  { rewrite <- Hv. destruct (Z.eq_dec E E0) as [->|Hne].
    - rewrite Z.sub_diag, Z.mul_1_r.
      change (2 ^ 53) with 9007199254740992 in BM.
      change (2 ^ 54) with 18014398509481984. lia.
    - replace (E - E0) with 1 by lia. change (2 ^ 1) with 2.
      change (2 ^ 53) with 9007199254740992 in BM.
      change (2 ^ 54) with 18014398509481984. lia. }
  change (2 ^ 52) with 4503599627370496 in *.
  change (2 ^ 54) with 18014398509481984 in *.
  change (2 ^ 63) with 9223372036854775808 in *.
  change (2 ^ 32) with 4294967296 in Ha.
  change (2 ^ 11) with 2048.
  destruct (Z_le_gt_dec E0 0) as [Hneg|Hpos].
  - (* the quotient has digits after the point *)
    set (K := 2 ^ (- E0)).
    assert (HK : 0 < K) by (apply Z.pow_pos_nonneg; lia).
    assert (HmK : Zpos m2 * K = rate * P).
    { subst K P E0. rewrite Hv2, <- !Z.mul_assoc, <- !Z.pow_add_r by lia.
      f_equal. f_equal. lia. }
    rewrite (trunc_finite _ M E E0 M') by (assumption || lia). fold K.
    assert (Hab : a / rate = M0 / K).
    { subst M0. rewrite Z.div_div, HmK by lia.
      now rewrite Z.div_mul_cancel_r by lia. }
    assert (Hlo : M0 / K <= M' / K) by (apply Z.div_le_mono; lia).
    assert (Hhi : M' / K <= M0 / K + 1).
    { transitivity ((M0 + 1 * K) / K).
      - apply Z.div_le_mono; lia.
      - rewrite Z.div_add by lia. lia. }
    assert (M' / K <= M').
    { apply Z.div_le_upper_bound; [lia|].
      rewrite <- (Z.mul_1_l M') at 1. apply Z.mul_le_mono_nonneg_r; lia. }
    assert (0 <= M0 / K) by (apply Z.div_pos; lia).
    exists (M' / K). split; [reflexivity|]. split; [lia|].
    split; [left; lia|]. fold a. rewrite Hab. lia.
  - (* the quotient is a multiple of [2^E0] *)
    assert (HE0 : E0 <= 11) by (subst E0; lia).
    set (K := 2 ^ E0).
    assert (HK : 2 <= K <= 2048).
    { subst K. split.
      - change 2 with (2 ^ 1) at 1. apply Z.pow_le_mono_r; lia.
      - change 2048 with (2 ^ 11). apply Z.pow_le_mono_r; lia. }
    assert (Hm2 : Zpos m2 = rate * K * P).
    { subst K P E0. rewrite Hv2, <- !Z.mul_assoc, <- !Z.pow_add_r by lia.
      f_equal. f_equal. lia. }
    rewrite (trunc_finite_up _ M E E0 M') by (assumption || lia). fold K.
    assert (HM0 : M0 = a / rate / K).
    { subst M0. rewrite Hm2, Z.div_mul_cancel_r, Z.div_div by lia.
      reflexivity. }
    pose proof (Z.div_mod (a / rate) K ltac:(lia)) as Hdk.
    pose proof (Z.mod_pos_bound (a / rate) K ltac:(lia)) as Hkb.
    rewrite <- HM0 in Hdk.
    assert (Hq : a / rate <= a).
    { apply Z.div_le_upper_bound; [lia|].
      rewrite <- (Z.mul_1_l a) at 1. apply Z.mul_le_mono_nonneg_r; lia. }
    exists (M' * K). split; [reflexivity|].
    split; [apply Z.mul_nonneg_nonneg; lia|].
    fold a. destruct (Z.eq_dec M' M0) as [->|Hne].
    + split; [|lia].
      destruct (Z_lt_le_dec 0 fr) as [Hfp|Hfn]; [left; lia|].
      destruct (Z.eq_dec (M0 * K) 9223372036854775808); [right; lia|left; lia].
    + assert (HM1 : M' = M0 + 1) by lia. specialize (Hup HM1).
      assert (Hr2 : 2 <= rate).
      { destruct (Z_le_gt_dec 2 rate) as [|Hr1]; [assumption|exfalso].
        assert (rate = 1) by lia. subst rate.
        assert (HR : R = 0).
        { subst R. rewrite Hm2, Z.mul_1_l, Z.mul_mod_distr_r by lia.
          replace (a mod K) with 0; [lia|]. symmetry.
          subst a K. replace 32 with (32 - E0 + E0) by lia.
          rewrite Z.pow_add_r, Z.mul_assoc by lia. apply Z.mod_mul.
          apply Z.pow_nonzero; lia. }
        lia. }
      assert (a / rate <= 4611686018427387904).
      { apply Z.div_le_upper_bound; lia. }
      split; [left; lia|]. lia.
Qed.

(** The control word of any [int] offset at a positive [int] rate: the
    integer part [t] of the double quotient, modulo [2^32]. *)
Lemma control_word_int fr rate :
  Int.is_int fr -> 0 < rate < 2 ^ 31 ->
  exists t,
    Double.trunc
      (Double.div (Double.mul (Double.of_int fr) p232) (Double.of_int rate))
      = Some t /\
    control_word fr rate = t mod 2 ^ 32 /\
    Z.abs (Z.abs t - Z.abs fr * 2 ^ 32 / rate) <= 2 ^ 11.
Proof.
  intros Hint Hrate. destruct (Z.eq_dec fr 0) as [->|Hfr].
  - exists 0. rewrite control_word_zero.
    destruct (of_int_exact rate) as (m2 & e2 & E2 & _);
      [lia | change (2 ^ 31) with 2147483648 in Hrate;
             change (2 ^ 53) with 9007199254740992; lia |].
    rewrite E2. split; [reflexivity|]. split; [reflexivity|].
    change (Z.abs 0) with 0. rewrite Z.mul_0_l, Z.div_0_l by lia.
    change (2 ^ 11) with 2048. change (Z.abs (0 - 0)) with 0. lia.
  - destruct (quotient_int fr rate Hint Hfr Hrate)
      as (t & Ht & H0 & H63 & Herr).
    exists (cond_Zopp (fr <? 0) t). split; [exact Ht|]. split.
    + unfold control_word, Double.to_uint32, Double.cvttsd2si. rewrite Ht.
      change (2 ^ (64 - 1)) with 9223372036854775808.
      change (2 ^ 63) with 9223372036854775808 in H63.
      destruct (_ && _) eqn:Ec; [reflexivity|exfalso].
      destruct (Z.ltb_spec fr 0); cbn [cond_Zopp] in Ec;
        apply andb_false_iff in Ec as [Ec|Ec];
        (apply Z.leb_gt in Ec || apply Z.ltb_ge in Ec); lia.
    + replace (Z.abs (cond_Zopp (fr <? 0) t)) with t; [exact Herr|].
      destruct (fr <? 0); cbn [cond_Zopp]; lia.
Qed.

(** ** The tuner, evaluated *)

Lemma bench_setFrequency fr :
  fr <> 10000 ->
  downmixer_setFrequency Bench.TUNED_FREQUENCY fr 0 Bench.ready
  = Some (Bench.tuned fr (control_word fr 2400000)).
Proof.
  intros Hfr. unfold downmixer_setFrequency. rewrite decide_False by assumption.
  cbn [with_trx printf fcw sinetable samplerate accu sht trx stdout Bench.ready].
  rewrite store_in_bounds by (cbn; lia).
  unfold Bench.TUNED_FREQUENCY. rewrite Z.add_0_r. reflexivity.
Qed.

(** Aliases: one sample rate above 10 kHz is 10 kHz again, and 10 kHz below
    zero is [2^32] minus the word of 10 kHz. *)
Example control_word_alias :
  control_word 10000 2400000 = 17895697 /\
  control_word 2410000 2400000 = 17895697 /\
  control_word (-10000) 2400000 = 2 ^ 32 - 17895697.
Proof. vm_compute. auto. Qed.

(** ** The sine table *)

(** The loop over the clients leaves the table alone. *)
Lemma default_frequency_sinetable T n : forall i g g',
  default_frequency T n i g = Some g' -> sinetable g' = sinetable g.
Proof.
  induction n as [|n IH]; intros i g g' H; cbn in H.
  - now injection H as <-.
  - destruct (downmixer_setFrequency T 10000 i g) as [g1|] eqn:E1;
      [|discriminate]. cbn in H.
    destruct (store (accu g1) i 0) as [a|]; [|discriminate]. cbn in H.
    apply IH in H. cbn in H.
    apply downmixer_setFrequency_inv in E1 as (_ & Ht & _). congruence.
Qed.

Lemma sinetable_with_sinetable t g : sinetable (with_sinetable t g) = t.
Proof. reflexivity. Qed.

Lemma downmixer_init_unfold M R T sin g :
  downmixer_init M R T sin g =
  default_frequency T M 0
    (with_sinetable (fill_sinetable sin (Z.to_nat SINETABSIZE) Double.zero)
       (with_samplerate R g)).
Proof. reflexivity. Qed.

(** Storing a double into a [short] cuts it toward zero, when the integer
    part fits. *)
Lemma to_short_trunc x t :
  Double.trunc x = Some t -> Int.is_short t -> Double.to_short x = t.
Proof.
  intros Ht Hs. unfold Double.to_short, Double.cvttsd2si. rewrite Ht.
  unfold Int.is_short in Hs. change (2 ^ (32 - 1)) with 2147483648.
  destruct (_ && _) eqn:Ec.
  - now apply short_id.
  - exfalso. apply andb_false_iff in Ec as [Ec|Ec];
      [apply Z.leb_gt in Ec | apply Z.ltb_ge in Ec]; lia.
Qed.

Lemma bench_downmixer_init :
  downmixer_init Bench.MAX_CLIENTS Bench.NB_SAMPLE_RATE Bench.TUNED_FREQUENCY
    Libm.sin Bench.start
  = Some Bench.ready.
Proof.
  rewrite downmixer_init_eq by (reflexivity || discriminate).
  unfold Bench.ready, Bench.table.
  generalize (fill_sinetable Libm.sin (Z.to_nat SINETABSIZE) Double.zero).
  intros t. reflexivity.
Qed.

Lemma sinetable_Globals t r f a s x o :
  sinetable (Globals t r f a s x o) = t.
Proof. reflexivity. Qed.

Lemma bench_ready_table : sinetable Bench.ready = Bench.table.
Proof. unfold Bench.ready. apply sinetable_Globals. Qed.

(** * The claims of the specification

    Each claim is stated on the functions above; where it takes hypotheses,
    a lemma after it instantiates it on the program of [Bench], tuned to
    300 kHz where the oscillator has to return something. *)

(** C1, as the program has it. After [downmixer_init] and
    [downmixer_setFrequency(0, 0)] the control word of channel 0 is 0, the
    accumulator stays 0 and the oscillator returns [sinetable[0]], the
    sample of [sin(0)], which is 0 and not near full scale: every call of
    [downmixer_process] on channel 0 writes back [(0, 0)], whatever the
    samples were, and the level shift stays 10. *)
Theorem zero_offset_silence M R T sin c isample qsample n :
  M <> O -> sin Double.zero = Double.zero ->
  exists g',
    run M R T sin
      ([Init; SetFrequency 0 0] ++ repeat_process n isample qsample 0)
      (program_start M c)
    = Some (replicate n (0, 0), g') /\
    load (fcw g') 0 = Some 0 /\ load (accu g') 0 = Some 0 /\
    load (sinetable g') 0 = Some 0 /\ sht g' = 10.
Proof.
  intros HM Hsin. exists (silent M R T sin c).
  split; [now apply zero_offset_run|].
  split; [|split; [|split; [now apply silent_table | reflexivity]]].
  - cbn [silent fcw]. apply (load_insert_eq _ 0).
    rewrite length_replicate. lia.
  - cbn [silent accu]. apply load_replicate. lia.
Qed.

Lemma zero_offset_silence_witness :
  exists g',
    Bench.run ([Init; SetFrequency 0 0] ++ repeat_process 3 1000 (-500) 0)
      Bench.start
    = Some ([(0, 0); (0, 0); (0, 0)], g') /\
    load (fcw g') 0 = Some 0 /\ load (accu g') 0 = Some 0 /\
    load (sinetable g') 0 = Some 0 /\ sht g' = 10.
Proof.
  apply (zero_offset_silence Bench.MAX_CLIENTS Bench.NB_SAMPLE_RATE
           Bench.TUNED_FREQUENCY Libm.sin (Cat 0 0) 1000 (-500) 3).
  - discriminate.
  - reflexivity.
Defined.

(** The scenario as the specification states it fails already at the first
    sample: the output is [(0, 0)], which no oscillator value of at least
    half scale produces from [(1000, -500)]. *)
Lemma zero_offset_claim_fails : ~ zero_offset_claim Bench.run Bench.start.
Proof.
  intros H. destruct (H 1%nat) as (lo & g' & [Hlo1 Hlo2] & Hrun).
  apply (zero_offset_outputs Bench.MAX_CLIENTS Bench.NB_SAMPLE_RATE
           Bench.TUNED_FREQUENCY Libm.sin) in Hrun;
    [|discriminate|reflexivity].
  assert (E : Int.short (Z.shiftr (1000 * lo) 10) = 0)
    by (injection Hrun as E _; exact E).
  rewrite Z.shiftr_div_pow2 in E by lia. change (2 ^ 10) with 1024 in E.
  assert (16000 <= 1000 * lo / 1024 <= 32767).
  { split; [apply Z.div_le_lower_bound | apply Z.div_le_upper_bound]; lia. }
  rewrite short_id in E by (unfold Int.is_short; lia). lia.
Qed.

(** C2, as the program has it. A call of [downmixer_process] raises the
    level shift by exactly 1 if and only if the rescaled product of the I
    sample, [ix >> sht] as a signed number, is above 32767 and the shift is
    below 15, and leaves it unchanged otherwise: neither the Q sample nor a
    product below -32768 raises it. *)
Theorem level_shift_trigger M isample qsample c g lo g1 i' q' g' :
  wf M g -> Int.is_short isample ->
  increment_NCO c g = Some (lo, g1) ->
  downmixer_process isample qsample c g = Some (i', q', g') ->
  sht g' = if (32767 <? Z.shiftr (isample * lo) (sht g)) && (sht g <? 15)
           then sht g + 1 else sht g.
Proof.
  intros Hwf Hi E H. rewrite downmixer_process_mix, E in H.
  assert (Hlo : Int.is_short lo).
  { pose proof E as E'.
    apply increment_NCO_inv in E' as (a & f & _ & _ & Hlo & _).
    exact (load_Forall _ _ _ _ (wf_table M g Hwf) Hlo). }
  assert (Hs : sht g1 = sht g).
  { apply increment_NCO_inv in E as (a & f & _ & _ & _ & ->). reflexivity. }
  pose proof (mix_sht isample qsample lo g1) as Hm.
  destruct (mix isample qsample lo g1) as [[i1 q1] g2].
  injection H as _ _ <-. cbn [snd] in Hm.
  rewrite Hm, Hs by (rewrite Hs; pose proof (wf_sht M g Hwf);
                     unfold Int.is_int; lia).
  rewrite int_id by (apply short_product; assumption). reflexivity.
Qed.

Lemma level_shift_trigger_witness :
  sht (Bench.shifted 300000 536870912) =
  if (32767 <? Z.shiftr (32767 * 23170) (sht (Bench.tuned 300000 536870912)))
     && (sht (Bench.tuned 300000 536870912) <? 15)
  then sht (Bench.tuned 300000 536870912) + 1
  else sht (Bench.tuned 300000 536870912).
Proof.
  apply (level_shift_trigger Bench.MAX_CLIENTS 32767 0 0
           (Bench.tuned 300000 536870912) 23170
           (with_accu [536870912; 0] (Bench.tuned 300000 536870912))
           (Int.short (Z.shiftr (Int.int (32767 * 23170)) 10))
           (Int.short (Z.shiftr (Int.int (0 * 23170)) 10))
           (Bench.shifted 300000 536870912)).
  - exact bench_300k_wf.
  - unfold Int.is_short. lia.
  - exact bench_300k_NCO.
  - apply bench_300k_loud. reflexivity.
Defined.

(** The trigger as the specification states it fails on the program tuned
    to 300 kHz: the samples [(-32768, 32767)] meet the oscillator value
    23170, both rescaled products exceed 32767 in magnitude, and the level
    shift stays 10. *)
Lemma level_shift_claim_fails :
  Bench.run [Init; SetFrequency 300000 0] Bench.start
    = Some ([], Bench.tuned 300000 536870912) /\
  ~ level_shift_claim (-32768) 32767 0 (Bench.tuned 300000 536870912).
Proof.
  split; [exact bench_300k|]. intros H.
  specialize (H 23170 _ _ _ _ bench_300k_NCO
                (bench_300k_quiet (-32768) 32767 eq_refl)).
  cbn [sht with_accu Bench.tuned] in H.
  change (magnitude_trigger (-32768) 32767 23170 10) with true in H.
  discriminate H.
Qed.

(** C3, as the program has it. For every offset below [2^21] Hz in
    magnitude and a valid channel, [downmixer_setFrequency] sets the control
    word to [offsetHz * 2^32 / samplerate] cut toward zero (the conversion to
    [uint32_t] truncates, it does not round to nearest), modulo [2^32]; the
    double intermediate adds no error. For an offset from 0 up to the sample
    rate this is the quotient rounded down. *)
Theorem control_word_truncates T fr c g :
  0 <= c < Z.of_nat (length (fcw g)) ->
  Z.abs fr < 2 ^ 21 -> 0 < samplerate g < 2 ^ 31 ->
  exists g',
    downmixer_setFrequency T fr c g = Some g' /\
    load (fcw g') c
      = Some (Z.quot (fr * 2 ^ 32) (samplerate g) mod 2 ^ 32) /\
    (0 <= fr < samplerate g ->
     load (fcw g') c = Some (fr * 2 ^ 32 / samplerate g)).
Proof.
  intros Hc Hfr Hrate.
  destruct (downmixer_setFrequency_total T fr c g Hc) as [g' E].
  exists g'. split; [exact E|].
  apply downmixer_setFrequency_inv in E as (_ & _ & _ & _ & _ & _ & _ & ->).
  assert (Hrate' : 0 < samplerate g < 2 ^ 53).
  { change (2 ^ 31) with 2147483648 in Hrate.
    change (2 ^ 53) with 9007199254740992. lia. }
  rewrite load_insert_eq, control_word_quot by assumption.
  split; [reflexivity|]. intros Hin. f_equal.
  rewrite Z.quot_div_nonneg by lia. apply Z.mod_small. split.
  - apply Z.div_pos; lia.
  - apply Z.div_lt_upper_bound; [lia|]. nia.
Qed.

Lemma control_word_truncates_witness :
  exists g',
    downmixer_setFrequency Bench.TUNED_FREQUENCY 1 0 Bench.ready = Some g' /\
    load (fcw g') 0
      = Some (Z.quot (1 * 2 ^ 32) (samplerate Bench.ready) mod 2 ^ 32) /\
    (0 <= 1 < samplerate Bench.ready ->
     load (fcw g') 0 = Some (1 * 2 ^ 32 / samplerate Bench.ready)).
Proof.
  apply (control_word_truncates Bench.TUNED_FREQUENCY 1 0 Bench.ready).
  - cbn. lia.
  - cbn. lia.
  - cbn. lia.
Defined.

(** The conversion as the specification states it fails on the initialised
    program for the offset of 1 Hz: the quotient is 1789.57, the program
    stores 1789, and the nearest integer is 1790. *)
Lemma control_word_claim_fails :
  Bench.run [Init] Bench.start = Some ([], Bench.ready) /\
  ~ control_word_claim Bench.TUNED_FREQUENCY 1 0 Bench.ready.
Proof.
  split; [exact bench_init|]. intros H.
  specialize (H _ (bench_setFrequency 1 ltac:(discriminate))).
  cbn [fcw samplerate Bench.tuned Bench.ready] in H.
  vm_compute in H. discriminate H.
Qed.

(** C4, as the program has it. [downmixer_init] writes the 65536 entries
    of the table, each once: entry [i] is the double product
    [sin(v_i) * 32768], with [v_i] the sum of [i] steps of [2 pi / 65536]
    in double arithmetic, stored into a [short]. Where the integer part of
    the product is in the range of [short], the entry is that integer part
    (the product is cut toward zero, not rounded, and the factor is 32768,
    not 32767); every entry lies in [-32768, 32767]. *)
Theorem sinetable_contents M R T sin g g' :
  downmixer_init M R T sin g = Some g' ->
  Z.of_nat (length (sinetable g')) = SINETABSIZE /\
  Forall Int.is_short (sinetable g') /\
  forall i, 0 <= i < SINETABSIZE ->
    load (sinetable g') i = Some (sine_sample sin (phase (Z.to_nat i))) /\
    forall t,
      Double.trunc (Double.mul (sin (phase (Z.to_nat i))) (Double.of_int 32768))
        = Some t ->
      Int.is_short t ->
      load (sinetable g') i = Some t.
Proof.
  intros H. rewrite downmixer_init_unfold in H.
  apply default_frequency_sinetable in H.
  rewrite sinetable_with_sinetable in H.
  rewrite H. split; [|split].
  - rewrite length_fill_sinetable. apply Z2Nat.id. unfold SINETABSIZE. lia.
  - apply fill_sinetable_short.
  - intros i Hi. rewrite load_fill_sinetable by assumption.
    split; [reflexivity|]. intros t Ht Hs. f_equal.
    now apply to_short_trunc.
Qed.

Lemma sinetable_contents_witness :
  Z.of_nat (length (sinetable Bench.ready)) = SINETABSIZE /\
  Forall Int.is_short (sinetable Bench.ready) /\
  forall i, 0 <= i < SINETABSIZE ->
    load (sinetable Bench.ready) i
      = Some (sine_sample Libm.sin (phase (Z.to_nat i))) /\
    forall t,
      Double.trunc (Double.mul (Libm.sin (phase (Z.to_nat i)))
                      (Double.of_int 32768)) = Some t ->
      Int.is_short t ->
      load (sinetable Bench.ready) i = Some t.
Proof.
  apply (sinetable_contents Bench.MAX_CLIENTS Bench.NB_SAMPLE_RATE
           Bench.TUNED_FREQUENCY Libm.sin Bench.start Bench.ready).
  exact bench_downmixer_init.
Defined.

(** The contents as the specification states them fail at three quarters
    of the period: the sine is -1 there, the program stores
    [-1 * 32768 = -32768], and the specification asks for -32767. *)
Lemma sinetable_claim_fails :
  Bench.run [Init] Bench.start = Some ([], Bench.ready) /\
  ~ sinetable_claim (sinetable Bench.ready).
Proof.
  split; [exact bench_init|]. intros H.
  destruct (H 49152) as (x & Hx & Hr); [unfold SINETABSIZE; lia|].
  rewrite bench_ready_table, bench_table_49152 in Hx.
  injection Hx as <-.
  replace (2 * PI * IZR 49152 / 65536)%R with (3 * (PI / 2))%R in Hr by lra.
  rewrite sin_3PI2 in Hr.
  replace (IZR (-32768) - -1 * 32767)%R with (-1)%R in Hr by lra.
  unfold Rabs in Hr. destruct (Rcase_abs (-1)) in Hr; lra.
Qed.

(** C5. One call of [increment_NCO] on a valid channel [c] sets [accu[c]]
    to [(accu[c] + fcw[c]) mod 2^32] and returns the table entry at the
    high 16 bits of the new accumulator; the accumulators of the other
    channels, all control words and every other global stay as they
    were. *)
Theorem increment_NCO_step M c g :
  wf M g -> channel M c ->
  exists a f lo g',
    load (accu g) c = Some a /\ load (fcw g) c = Some f /\
    increment_NCO c g = Some (lo, g') /\
    load (accu g') c = Some ((a + f) mod 2 ^ 32) /\
    load (sinetable g) (Z.shiftr ((a + f) mod 2 ^ 32) 16) = Some lo /\
    (forall c', c' <> c -> load (accu g') c' = load (accu g) c') /\
    fcw g' = fcw g /\ sinetable g' = sinetable g /\
    samplerate g' = samplerate g /\ sht g' = sht g /\
    trx g' = trx g /\ stdout g' = stdout g.
Proof.
  intros Hwf Hc.
  destruct (increment_NCO_total M c g Hwf Hc) as (a & f & lo & Ha & Hf & _ & E).
  pose proof E as E'.
  apply increment_NCO_inv in E' as (a' & f' & Ha' & Hf' & Hlo & _).
  assert (a' = a) by congruence. assert (f' = f) by congruence. subst a' f'.
  exists a, f, lo, (with_accu (<[Z.to_nat c := (a + f) mod 2 ^ 32]> (accu g)) g).
  pose proof Ha as Hb. apply load_Some in Hb as [Hb _].
  cbn. repeat split; try assumption; try reflexivity.
  - now apply load_insert_eq.
  - intros c' Hne. apply load_insert_ne; [lia | congruence].
Qed.

Lemma increment_NCO_step_witness :
  exists a f lo g',
    load (accu (Bench.tuned 300000 536870912)) 0 = Some a /\
    load (fcw (Bench.tuned 300000 536870912)) 0 = Some f /\
    increment_NCO 0 (Bench.tuned 300000 536870912) = Some (lo, g') /\
    load (accu g') 0 = Some ((a + f) mod 2 ^ 32) /\
    load (sinetable (Bench.tuned 300000 536870912))
      (Z.shiftr ((a + f) mod 2 ^ 32) 16) = Some lo /\
    (forall c', c' <> 0 ->
       load (accu g') c' = load (accu (Bench.tuned 300000 536870912)) c') /\
    fcw g' = fcw (Bench.tuned 300000 536870912) /\
    sinetable g' = sinetable (Bench.tuned 300000 536870912) /\
    samplerate g' = samplerate (Bench.tuned 300000 536870912) /\
    sht g' = sht (Bench.tuned 300000 536870912) /\
    trx g' = trx (Bench.tuned 300000 536870912) /\
    stdout g' = stdout (Bench.tuned 300000 536870912).
Proof.
  apply (increment_NCO_step Bench.MAX_CLIENTS 0 (Bench.tuned 300000 536870912)).
  - exact bench_300k_wf.
  - unfold channel, Bench.MAX_CLIENTS. lia.
Defined.

(** C6. Along the calls of the program, from its start on, the level shift
    never decreases, stays between its initial 10 and 15, and once 15 it
    does not change: [g1] is the program after any calls, [g2] after any
    further ones. *)
Theorem level_shift_monotone M R T sin c cs1 cs2 os1 g1 os2 g2 :
  run M R T sin cs1 (program_start M c) = Some (os1, g1) ->
  run M R T sin cs2 g1 = Some (os2, g2) ->
  10 <= sht g1 /\ sht g1 <= sht g2 /\ sht g2 <= 15 /\
  (sht g1 = 15 -> sht g2 = 15).
Proof.
  assert (Hrun : forall cs g os g',
    Int.is_int (sht g) -> run M R T sin cs g = Some (os, g') ->
    sht g <= sht g' /\ (sht g <= 15 -> sht g' <= 15) /\
    (15 <= sht g -> sht g' = sht g)).
  { induction cs as [|x cs IH]; intros g os g' Hs H.
    - injection H as _ <-. lia.
    - rewrite run_cons in H.
      destruct (exec M R T sin x g) as [[o h]|] eqn:E; [|discriminate].
      destruct (run M R T sin cs h) as [[os' h']|] eqn:E'; [|discriminate].
      injection H as _ <-.
      destruct (exec_sht M R T sin x g o h Hs E) as (H1 & H2 & H3).
      assert (Hh : Int.is_int (sht h)) by (unfold Int.is_int in *; lia).
      destruct (IH h os' h' Hh E') as (H4 & H5 & H6). lia. }
  intros E1 E2.
  destruct (Hrun cs1 (program_start M c) os1 g1) as (H1 & H2 & _);
    [cbn; unfold Int.is_int; lia | exact E1 |].
  cbn [program_start sht] in H1, H2.
  destruct (Hrun cs2 g1 os2 g2) as (H3 & H4 & H5);
    [unfold Int.is_int; lia | exact E2 |].
  lia.
Qed.

Lemma level_shift_monotone_witness :
  10 <= sht (Bench.tuned 300000 536870912) /\
  sht (Bench.tuned 300000 536870912) <= sht (Bench.shifted 300000 536870912) /\
  sht (Bench.shifted 300000 536870912) <= 15 /\
  (sht (Bench.tuned 300000 536870912) = 15 ->
   sht (Bench.shifted 300000 536870912) = 15).
Proof.
  apply (level_shift_monotone Bench.MAX_CLIENTS Bench.NB_SAMPLE_RATE
           Bench.TUNED_FREQUENCY Libm.sin (Cat 0 0)
           [Init; SetFrequency 300000 0] [Process 32767 0 0]
           [] (Bench.tuned 300000 536870912)
           [(20521, 0)] (Bench.shifted 300000 536870912)).
  - exact bench_300k.
  - rewrite run_cons. cbn [exec run]. rewrite bench_300k_process.
    reflexivity.
Defined.

(** C7. [downmixer_setFrequency] takes every offset, of whatever size and
    sign, on a valid channel: it returns, the globals stay well formed, and
    the control word of the channel is a 32-bit value. For every [int]
    offset (and a positive sample rate) the double quotient is finite and
    the control word is its integer part modulo [2^32], so that a negative
    offset or one beyond the sample rate wraps around; that integer part is
    within [2^11] of the exact quotient, and below [2^21] Hz in magnitude it
    is the exact quotient cut toward zero. *)
Theorem downmixer_setFrequency_accepts M T fr c g :
  wf M g -> channel M c ->
  exists g',
    downmixer_setFrequency T fr c g = Some g' /\
    wf M g' /\
    load (fcw g') c = Some (control_word fr (samplerate g)) /\
    Int.is_uint32 (control_word fr (samplerate g)) /\
    (Int.is_int fr -> 0 < samplerate g < 2 ^ 31 ->
     exists t,
       Double.trunc (Double.div (Double.mul (Double.of_int fr) p232)
                       (Double.of_int (samplerate g))) = Some t /\
       control_word fr (samplerate g) = t mod 2 ^ 32 /\
       Z.abs (Z.abs t - Z.abs fr * 2 ^ 32 / samplerate g) <= 2 ^ 11) /\
    (Z.abs fr < 2 ^ 21 -> 0 < samplerate g < 2 ^ 31 ->
     control_word fr (samplerate g)
       = Z.quot (fr * 2 ^ 32) (samplerate g) mod 2 ^ 32).
Proof.
  intros Hwf Hc.
  assert (Hb : 0 <= c < Z.of_nat (length (fcw g)))
    by (rewrite (wf_fcw_size M g Hwf); exact Hc).
  destruct (downmixer_setFrequency_total T fr c g Hb) as [g' E].
  exists g'. split; [exact E|].
  split; [exact (downmixer_setFrequency_wf M T fr c g g' Hwf E)|].
  apply downmixer_setFrequency_inv in E as (_ & _ & _ & _ & _ & _ & _ & ->).
  split; [now apply load_insert_eq|].
  split; [apply control_word_range|]. split.
  - intros Hint Hrate. now apply control_word_int.
  - intros Hfr Hrate. apply control_word_quot; [assumption|].
    change (2 ^ 31) with 2147483648 in Hrate.
    change (2 ^ 53) with 9007199254740992. lia.
Qed.

Lemma downmixer_setFrequency_accepts_witness :
  exists g',
    downmixer_setFrequency Bench.TUNED_FREQUENCY (-10000) 1 Bench.ready
      = Some g' /\
    wf Bench.MAX_CLIENTS g' /\
    load (fcw g') 1 = Some (control_word (-10000) (samplerate Bench.ready)) /\
    Int.is_uint32 (control_word (-10000) (samplerate Bench.ready)) /\
    (Int.is_int (-10000) -> 0 < samplerate Bench.ready < 2 ^ 31 ->
     exists t,
       Double.trunc (Double.div (Double.mul (Double.of_int (-10000)) p232)
                       (Double.of_int (samplerate Bench.ready))) = Some t /\
       control_word (-10000) (samplerate Bench.ready) = t mod 2 ^ 32 /\
       Z.abs (Z.abs t - Z.abs (-10000) * 2 ^ 32 / samplerate Bench.ready)
         <= 2 ^ 11) /\
    (Z.abs (-10000) < 2 ^ 21 -> 0 < samplerate Bench.ready < 2 ^ 31 ->
     control_word (-10000) (samplerate Bench.ready)
       = Z.quot (-10000 * 2 ^ 32) (samplerate Bench.ready) mod 2 ^ 32).
Proof.
  apply (downmixer_setFrequency_accepts Bench.MAX_CLIENTS
           Bench.TUNED_FREQUENCY (-10000) 1 Bench.ready).
  - exact bench_ready_wf.
  - unfold channel, Bench.MAX_CLIENTS. lia.
Defined.

(** C8. On a valid channel and two [short] samples, [downmixer_process]
    takes [lo] from [increment_NCO], multiplies both samples by it without
    wrap-around ([ix = isample * lo], [qx = qsample * lo] as integers), and
    writes back [ix >> sht] and [qx >> sht] cut to 16 bits, [sht] being the
    level shift before the call. *)
Theorem downmixer_process_arithmetic M isample qsample c g :
  wf M g -> channel M c -> Int.is_short isample -> Int.is_short qsample ->
  exists lo g1 g',
    increment_NCO c g = Some (lo, g1) /\
    Int.int (isample * lo) = isample * lo /\
    Int.int (qsample * lo) = qsample * lo /\
    downmixer_process isample qsample c g =
      Some (Int.short (Z.shiftr (isample * lo) (sht g)),
            Int.short (Z.shiftr (qsample * lo) (sht g)), g').
Proof.
  intros Hwf Hc Hi Hq.
  destruct (increment_NCO_total M c g Hwf Hc)
    as (a & f & lo & _ & _ & Hlo & E).
  rewrite downmixer_process_mix, E.
  destruct (short_product isample lo Hi Hlo) as [_ Hix].
  destruct (short_product qsample lo Hq Hlo) as [_ Hqx].
  apply int_id in Hix, Hqx.
  eexists lo, _, _. split; [reflexivity|]. split; [exact Hix|].
  split; [exact Hqx|]. unfold mix. cbn [sht with_accu].
  rewrite Hix, Hqx. reflexivity.
Qed.

Lemma downmixer_process_arithmetic_witness :
  exists lo g1 g',
    increment_NCO 0 (Bench.tuned 300000 536870912) = Some (lo, g1) /\
    Int.int (1000 * lo) = 1000 * lo /\
    Int.int (-500 * lo) = -500 * lo /\
    downmixer_process 1000 (-500) 0 (Bench.tuned 300000 536870912) =
      Some (Int.short (Z.shiftr (1000 * lo)
                         (sht (Bench.tuned 300000 536870912))),
            Int.short (Z.shiftr (-500 * lo)
                         (sht (Bench.tuned 300000 536870912))), g').
Proof.
  apply (downmixer_process_arithmetic Bench.MAX_CLIENTS 1000 (-500) 0
           (Bench.tuned 300000 536870912)).
  - exact bench_300k_wf.
  - unfold channel, Bench.MAX_CLIENTS. lia.
  - unfold Int.is_short. lia.
  - unfold Int.is_short. lia.
Defined.

(** C9. Whatever the oscillator returns is a [short], and its product with
    a [short] sample has magnitude at most [2^30]: it fits the 32-bit [int]
    of the multiplication, which therefore does not wrap. *)
Theorem mixer_product_fits M c g lo g' isample :
  wf M g -> increment_NCO c g = Some (lo, g') -> Int.is_short isample ->
  Int.is_short lo /\
  Z.abs (isample * lo) <= 2 ^ 30 /\
  Int.is_int (isample * lo) /\
  Int.int (isample * lo) = isample * lo.
Proof.
  intros Hwf E Hi.
  apply increment_NCO_inv in E as (a & f & _ & _ & Hlo & _).
  assert (Hs : Int.is_short lo) by exact (load_Forall _ _ _ _ (wf_table M g Hwf) Hlo).
  destruct (short_product isample lo Hi Hs) as [Hab Hint].
  split; [exact Hs|]. split; [exact Hab|]. split; [exact Hint|].
  now apply int_id.
Qed.

Lemma mixer_product_fits_witness :
  Int.is_short 23170 /\
  Z.abs (-32768 * 23170) <= 2 ^ 30 /\
  Int.is_int (-32768 * 23170) /\
  Int.int (-32768 * 23170) = -32768 * 23170.
Proof.
  apply (mixer_product_fits Bench.MAX_CLIENTS 0 (Bench.tuned 300000 536870912)
           23170 (with_accu [536870912; 0] (Bench.tuned 300000 536870912))
           (-32768)).
  - exact bench_300k_wf.
  - exact bench_300k_NCO.
  - unfold Int.is_short. lia.
Defined.

(** C10. A call of [downmixer_process] on channel [c] leaves all control
    words, the accumulators of the other channels, the sine table and the
    sample rate as they were (and the CAT variables too): it changes only
    the two samples, [accu[c]] and possibly the level shift, of which it
    then prints the old value. *)
Theorem downmixer_process_frame isample qsample c g i' q' g' :
  downmixer_process isample qsample c g = Some (i', q', g') ->
  fcw g' = fcw g /\
  (forall c', c' <> c -> load (accu g') c' = load (accu g) c') /\
  length (accu g') = length (accu g) /\
  sinetable g' = sinetable g /\
  samplerate g' = samplerate g /\
  trx g' = trx g.
Proof.
  rewrite downmixer_process_mix.
  destruct (increment_NCO c g) as [[lo g1]|] eqn:E; [|discriminate].
  apply increment_NCO_inv in E as (a & f & Ha & _ & _ & ->).
  pose proof (mix_frame isample qsample lo
    (with_accu (<[Z.to_nat c := (a + f) mod 2 ^ 32]> (accu g)) g))
    as (Ht & Hr & Hf & Hac & Hx).
  destruct (mix isample qsample lo _) as [[i1 q1] g2].
  intros [= _ _ <-]. cbn in Ht, Hr, Hf, Hac, Hx.
  apply load_Some in Ha as [Ha _].
  rewrite Ht, Hr, Hf, Hac, Hx. repeat split.
  - intros c' Hne. apply load_insert_ne; [lia | congruence].
  - apply length_insert.
Qed.

Lemma downmixer_process_frame_witness :
  fcw (with_accu [536870912; 0] (Bench.tuned 300000 536870912))
    = fcw (Bench.tuned 300000 536870912) /\
  (forall c', c' <> 0 ->
     load (accu (with_accu [536870912; 0] (Bench.tuned 300000 536870912))) c'
     = load (accu (Bench.tuned 300000 536870912)) c') /\
  length (accu (with_accu [536870912; 0] (Bench.tuned 300000 536870912)))
    = length (accu (Bench.tuned 300000 536870912)) /\
  sinetable (with_accu [536870912; 0] (Bench.tuned 300000 536870912))
    = sinetable (Bench.tuned 300000 536870912) /\
  samplerate (with_accu [536870912; 0] (Bench.tuned 300000 536870912))
    = samplerate (Bench.tuned 300000 536870912) /\
  trx (with_accu [536870912; 0] (Bench.tuned 300000 536870912))
    = trx (Bench.tuned 300000 536870912).
Proof.
  apply (downmixer_process_frame 1000 (-500) 0 (Bench.tuned 300000 536870912)
           (Int.short (Z.shiftr (Int.int (1000 * 23170)) 10))
           (Int.short (Z.shiftr (Int.int (-500 * 23170)) 10))).
  apply bench_300k_quiet. reflexivity.
Defined.

(** * Further properties of the code

    Lemmas first; the properties themselves are stated at the end. *)

(** ** One call of the mixer, in full *)

(** [downmixer_process] on a valid channel: the samples written back and
    every global afterwards. *)
Lemma downmixer_process_spec M i q c g :
  wf M g -> channel M c ->
  exists a f lo,
    load (accu g) c = Some a /\ load (fcw g) c = Some f /\
    load (sinetable g) (Z.shiftr ((a + f) mod 2 ^ 32) 16) = Some lo /\
    Int.is_short lo /\
    downmixer_process i q c g =
    Some (Int.short (Z.shiftr (Int.int (i * lo)) (sht g)),
          Int.short (Z.shiftr (Int.int (q * lo)) (sht g)),
          {| sinetable := sinetable g;
             samplerate := samplerate g;
             fcw := fcw g;
             accu := <[Z.to_nat c := (a + f) mod 2 ^ 32]> (accu g);
             sht := if (32767 <? Z.shiftr (Int.int (i * lo)) (sht g))
                       && (sht g <? 15)
                    then sht g + 1 else sht g;
             trx := trx g;
             stdout := if (32767 <? Z.shiftr (Int.int (i * lo)) (sht g))
                          && (sht g <? 15)
                       then stdout g ++ [level_shifter_adapted (sht g)]
                       else stdout g |}).
Proof.
  intros Hwf Hc.
  destruct (increment_NCO_total M c g Hwf Hc) as (a & f & lo & Ha & Hf & Hlo & E).
  pose proof E as E'.
  apply increment_NCO_inv in E' as (a' & f' & Ha' & Hf' & Ht & _).
  assert (a' = a) by congruence. assert (f' = f) by congruence. subst a' f'.
  exists a, f, lo. repeat (split; [assumption|]).
  rewrite downmixer_process_mix, E. unfold mix.
  cbn [sht with_accu with_sht printf sinetable samplerate fcw accu trx stdout].
  destruct (32767 <? _); cbn [andb]; [|reflexivity].
  destruct (sht g <? 15) eqn:Es; [|reflexivity].
  apply Z.ltb_lt in Es. pose proof (wf_sht M g Hwf).
  rewrite (int_id (sht g + 1)) by (unfold Int.is_int; lia). reflexivity.
Qed.

(** ... and on whatever channel, when it returns. *)
Lemma downmixer_process_inv i q c g i' q' g' :
  downmixer_process i q c g = Some (i', q', g') ->
  exists a f lo,
    load (accu g) c = Some a /\ load (fcw g) c = Some f /\
    load (sinetable g) (Z.shiftr ((a + f) mod 2 ^ 32) 16) = Some lo /\
    i' = Int.short (Z.shiftr (Int.int (i * lo)) (sht g)) /\
    q' = Int.short (Z.shiftr (Int.int (q * lo)) (sht g)) /\
    sinetable g' = sinetable g /\ samplerate g' = samplerate g /\
    fcw g' = fcw g /\ trx g' = trx g /\
    accu g' = <[Z.to_nat c := (a + f) mod 2 ^ 32]> (accu g) /\
    (sht g' = sht g /\ stdout g' = stdout g \/
     32767 < Z.shiftr (Int.int (i * lo)) (sht g) /\ sht g < 15 /\
     sht g' = Int.int (sht g + 1) /\
     stdout g' = stdout g ++ [level_shifter_adapted (sht g)]).
Proof.
  rewrite downmixer_process_mix.
  destruct (increment_NCO c g) as [[lo g1]|] eqn:E; [|discriminate].
  apply increment_NCO_inv in E as (a & f & Ha & Hf & Hlo & ->).
  unfold mix.
  cbn [sht with_accu with_sht printf sinetable samplerate fcw accu trx stdout].
  intros [= <- <- <-]. exists a, f, lo.
  repeat (split; [assumption || reflexivity|]).
  destruct (Z.ltb_spec 32767 (Z.shiftr (Int.int (i * lo)) (sht g)));
    destruct (Z.ltb_spec (sht g) 15); cbn; auto 12.
Qed.

(** A call for a channel that does not exist reads outside the arrays. *)
Lemma increment_NCO_bounds c g r :
  increment_NCO c g = Some r -> 0 <= c < Z.of_nat (length (accu g)).
Proof.
  destruct r as [lo g']. intros H.
  apply increment_NCO_inv in H as (a & f & Ha & _).
  now apply load_Some in Ha as [Ha _].
Qed.

(** ** Streams of samples *)

Section Streams.

Variable MAX_CLIENTS : nat.
Variables NB_SAMPLE_RATE TUNED_FREQUENCY : Z.
Variable sin : Double.double -> Double.double.

Abbreviation run' := (run MAX_CLIENTS NB_SAMPLE_RATE TUNED_FREQUENCY sin).

Lemma run_process i q c cs g :
  run' (Process i q c :: cs) g =
  match downmixer_process i q c g with
  | Some (i', q', g1) =>
      match run' cs g1 with
      | Some (os, g2) => Some ((i', q') :: os, g2)
      | None => None
      end
  | None => None
  end.
Proof.
  rewrite run_cons. cbn [exec].
  destruct (downmixer_process i q c g) as [[[i' q'] g1]|]; reflexivity.
Qed.

(** The accumulator of channel [c] after a stream of samples: one control
    word further for every sample. *)
Lemma process_stream_accu c f samples : forall g a,
  wf MAX_CLIENTS g -> channel MAX_CLIENTS c ->
  load (accu g) c = Some a -> load (fcw g) c = Some f ->
  exists os g',
    run' (process_stream c samples) g = Some (os, g') /\
    wf MAX_CLIENTS g' /\
    length os = length samples /\
    load (accu g') c
      = Some ((a + Z.of_nat (length samples) * f) mod 2 ^ 32) /\
    fcw g' = fcw g /\ sinetable g' = sinetable g /\
    samplerate g' = samplerate g.
Proof.
  induction samples as [|[i q] samples IH]; intros g a Hwf Hc Ha Hf.
  - exists [], g. cbn [process_stream map run length].
    split; [reflexivity|]. split; [exact Hwf|]. split; [reflexivity|].
    split; [|auto]. rewrite Ha, Z.mul_0_l, Z.add_0_r. f_equal.
    symmetry. apply Z.mod_small.
    exact (load_Forall _ _ _ _ (wf_accu _ g Hwf) Ha).
  - cbn [process_stream map fst snd]. rewrite run_process.
    destruct (downmixer_process_spec MAX_CLIENTS i q c g Hwf Hc)
      as (a0 & f0 & lo & Ha0 & Hf0 & _ & _ & E).
    assert (a0 = a) by congruence. assert (f0 = f) by congruence. subst a0 f0.
    rewrite E.
    match type of E with _ = Some (_, _, ?h) => set (g1 := h) in * end.
    assert (Hwf1 : wf MAX_CLIENTS g1).
    { eapply downmixer_process_wf; [exact Hwf | exact E]. }
    assert (Hb : 0 <= c < Z.of_nat (length (accu g)))
      by (now apply load_Some in Ha as [Ha _]).
    destruct (IH g1 ((a + f) mod 2 ^ 32) Hwf1 Hc)
      as (os & g' & Hrun & Hwf' & Hlen & Hacc & Hfcw & Htab & Hrate).
    { subst g1. cbn [accu]. now apply load_insert_eq. }
    { subst g1. cbn [fcw]. exact Hf. }
    fold (process_stream c samples). rewrite Hrun.
    eexists _, g'. split; [reflexivity|].
    split; [exact Hwf'|]. split; [cbn [length]; now rewrite Hlen|].
    split; [|now subst g1].
    rewrite Hacc. f_equal. cbn [length].
    rewrite Zplus_mod_idemp_l. f_equal. lia.
Qed.

End Streams.

(** Below the headroom of the level shift the shifted product is a
    [short], and does not raise the shift. *)
Lemma mix_headroom i lo s :
  Int.is_short lo -> 10 <= s <= 15 -> Z.abs i < 2 ^ s ->
  Int.short (Z.shiftr (Int.int (i * lo)) s) = i * lo / 2 ^ s /\
  (32767 <? Z.shiftr (Int.int (i * lo)) s) = false.
Proof.
  intros Hlo Hs Hi.
  assert (Hp : 0 < 2 ^ s) by (apply Z.pow_pos_nonneg; lia).
  assert (Hp' : 2 ^ s <= 32768).
  { change 32768 with (2 ^ 15). apply Z.pow_le_mono_r; lia. }
  assert (Hsh : Int.is_short i) by (unfold Int.is_short; lia).
  rewrite int_id by (now apply short_product).
  rewrite Z.shiftr_div_pow2 by lia.
  unfold Int.is_short in Hlo.
  assert (Hx : -32768 * 2 ^ s <= i * lo < 32768 * 2 ^ s) by nia.
  assert (Hq : -32768 <= i * lo / 2 ^ s <= 32767).
  { split.
    - apply Z.div_le_lower_bound; lia.
    - apply Z.lt_succ_r. apply Z.div_lt_upper_bound; lia. }
  split; [apply short_id; exact Hq | apply Z.ltb_ge; lia].
Qed.

(** Before [downmixer_init] the table, the control words and the
    accumulators are zero: a call of the mixer writes back zeros and
    changes nothing. *)
Lemma process_before_init M x c i q :
  channel M c ->
  downmixer_process i q c (program_start M x)
  = Some (0, 0, program_start M x).
Proof.
  intros Hc. unfold channel in Hc.
  rewrite downmixer_process_mix.
  rewrite (increment_NCO_intro c (program_start M x) 0 0 0).
  - replace (with_accu _ (program_start M x))
      with (program_start M x).
    + unfold mix. rewrite !Z.mul_0_r. reflexivity.
    + symmetry. apply with_accu_same. cbn [program_start accu].
      apply list_insert_id, lookup_replicate_2. lia.
  - cbn [program_start accu]. now apply load_replicate.
  - cbn [program_start fcw]. now apply load_replicate.
  - change (Z.shiftr ((0 + 0) mod 2 ^ 32) 16) with 0.
    apply load_start_table. unfold SINETABSIZE. lia.
Qed.

(** ** What a run prints and commands *)

(** The loop over the clients neither prints nor touches the level shift;
    it leaves the CAT variables at 10 kHz, if there is a client. *)
Lemma default_frequency_frame T n : forall i g g',
  default_frequency T n i g = Some g' ->
  sht g' = sht g /\ stdout g' = stdout g /\ samplerate g' = samplerate g /\
  trx g' = match n with O => trx g | S _ => Cat (10000 + T) 2 end.
Proof.
  induction n as [|n IH]; intros i g g' H; cbn in H.
  - injection H as <-. auto.
  - destruct (downmixer_setFrequency T 10000 i g) as [g1|] eqn:E1;
      [|discriminate]. cbn in H.
    destruct (store (accu g1) i 0) as [a|]; [|discriminate]. cbn in H.
    apply IH in H. cbn in H. destruct H as (Hs & Ho & Hr & Hx).
    apply downmixer_setFrequency_inv in E1
      as (_ & _ & Hr1 & _ & Hs1 & Hx1 & Ho1 & _).
    rewrite decide_True in Ho1 by reflexivity.
    repeat split; try congruence.
    rewrite Hx. destruct n; [exact Hx1 | reflexivity].
Qed.

Lemma downmixer_init_frame M R T sin g g' :
  downmixer_init M R T sin g = Some g' ->
  sht g' = sht g /\ stdout g' = stdout g /\ samplerate g' = R /\
  trx g' = match M with O => trx g | S _ => Cat (10000 + T) 2 end.
Proof.
  rewrite downmixer_init_unfold. intros H.
  apply default_frequency_frame in H.
  cbn [sht stdout samplerate trx with_sinetable with_samplerate] in H.
  exact H.
Qed.

Section Logs.

Variable MAX_CLIENTS : nat.
Variables NB_SAMPLE_RATE TUNED_FREQUENCY : Z.
Variable sin : Double.double -> Double.double.

Abbreviation exec' := (exec MAX_CLIENTS NB_SAMPLE_RATE TUNED_FREQUENCY sin).
Abbreviation run' := (run MAX_CLIENTS NB_SAMPLE_RATE TUNED_FREQUENCY sin).

Lemma exec_inv x g o g' :
  exec' x g = Some (o, g') ->
  match x with
  | Init =>
      o = None /\
      downmixer_init MAX_CLIENTS NB_SAMPLE_RATE TUNED_FREQUENCY sin g = Some g'
  | SetFrequency fr n =>
      o = None /\ downmixer_setFrequency TUNED_FREQUENCY fr n g = Some g'
  | Process i q n =>
      exists i' q', o = Some (i', q') /\
        downmixer_process i q n g = Some (i', q', g')
  end.
Proof.
  destruct x as [|fr n|i q n]; cbn [exec].
  - destruct (downmixer_init _ _ _ _ g) as [g1|]; [|discriminate].
    cbn. intros [= <- <-]. auto.
  - destruct (downmixer_setFrequency _ fr n g) as [g1|]; [|discriminate].
    cbn. intros [= <- <-]. auto.
  - destruct (downmixer_process i q n g) as [[[i' q'] g1]|]; [|discriminate].
    cbn. intros [= <- <-]. eauto.
Qed.

(** One call: the lines about the level shift that it prints are the
    shifts it leaves behind. *)
Lemma exec_level x g o g' :
  10 <= sht g <= 15 -> exec' x g = Some (o, g') ->
  sht g <= sht g' <= 15 /\
  level_messages (stdout g')
    = level_messages (stdout g) ++ seqZ (sht g) (sht g' - sht g).
Proof.
  intros Hs H. apply exec_inv in H. destruct x as [|fr n|i q n].
  - destruct H as [_ H]. apply downmixer_init_frame in H as (-> & -> & _).
    rewrite Z.sub_diag, app_nil_r. split; [lia | reflexivity].
  - destruct H as [_ H].
    apply downmixer_setFrequency_inv in H as (_ & _ & _ & _ & -> & _ & -> & _).
    rewrite Z.sub_diag. cbn [seqZ]. rewrite app_nil_r. split; [lia|].
    destruct (decide (fr = 10000)); [reflexivity|].
    unfold level_messages. rewrite omap_app. cbn. now rewrite app_nil_r.
  - destruct H as (i' & q' & _ & H).
    apply downmixer_process_inv in H
      as (a & f & lo & _ & _ & _ & _ & _ & _ & _ & _ & _ & _ & H).
    destruct H as [[-> ->]|(_ & Hlt & -> & ->)].
    + rewrite Z.sub_diag, app_nil_r. split; [lia | reflexivity].
    + rewrite int_id by (unfold Int.is_int; lia). split; [lia|].
      unfold level_messages. rewrite omap_app. f_equal.
      replace (sht g + 1 - sht g) with 1 by lia. reflexivity.
Qed.

Lemma run_level cs : forall g os g',
  10 <= sht g <= 15 -> run' cs g = Some (os, g') ->
  sht g <= sht g' <= 15 /\
  level_messages (stdout g')
    = level_messages (stdout g) ++ seqZ (sht g) (sht g' - sht g).
Proof.
  induction cs as [|x cs IH]; intros g os g' Hs H.
  - injection H as _ <-. rewrite Z.sub_diag, app_nil_r.
    split; [lia | reflexivity].
  - rewrite run_cons in H.
    destruct (exec' x g) as [[o g1]|] eqn:E; [|discriminate].
    destruct (run' cs g1) as [[os1 g2]|] eqn:E'; [|discriminate].
    injection H as _ <-.
    destruct (exec_level x g o g1 Hs E) as [H1 L1].
    destruct (IH g1 os1 g2 ltac:(lia) E') as [H2 L2].
    split; [lia|]. rewrite L2, L1, <- app_assoc. f_equal.
    replace (sht g2 - sht g) with ((sht g1 - sht g) + (sht g2 - sht g1))
      by lia.
    rewrite seqZ_app by lia. do 2 f_equal. lia.
Qed.

(** One call: the lines about the tuning that it prints. *)
Lemma exec_qrg x g o g' :
  exec' x g = Some (o, g') ->
  exists l, stdout g' = stdout g ++ l /\ qrg_messages l = omap logged [x].
Proof.
  intros H. apply exec_inv in H. destruct x as [|fr n|i q n].
  - destruct H as [_ H]. apply downmixer_init_frame in H as (_ & -> & _).
    exists []. now rewrite app_nil_r.
  - destruct H as [_ H].
    apply downmixer_setFrequency_inv in H as (_ & _ & _ & _ & _ & _ & -> & _).
    cbn [omap list_omap logged].
    destruct (decide (fr = 10000)).
    + exists []. now rewrite app_nil_r.
    + exists [set_mixer_qrg fr n]. auto.
  - destruct H as (i' & q' & _ & H).
    apply downmixer_process_inv in H
      as (a & f & lo & _ & _ & _ & _ & _ & _ & _ & _ & _ & _ & H).
    destruct H as [[_ ->]|(_ & _ & _ & ->)].
    + exists []. now rewrite app_nil_r.
    + exists [level_shifter_adapted (sht g)]. auto.
Qed.

Lemma run_qrg cs : forall g os g',
  run' cs g = Some (os, g') ->
  exists l, stdout g' = stdout g ++ l /\ qrg_messages l = omap logged cs.
Proof.
  induction cs as [|x cs IH]; intros g os g' H.
  - injection H as _ <-. exists []. now rewrite app_nil_r.
  - rewrite run_cons in H.
    destruct (exec' x g) as [[o g1]|] eqn:E; [|discriminate].
    destruct (run' cs g1) as [[os1 g2]|] eqn:E'; [|discriminate].
    injection H as _ <-.
    destruct (exec_qrg x g o g1 E) as (l1 & Ho1 & Hl1).
    destruct (IH g1 os1 g2 E') as (l2 & Ho2 & Hl2).
    exists (l1 ++ l2). rewrite Ho2, Ho1, app_assoc. split; [reflexivity|].
    unfold qrg_messages in *. rewrite omap_app, Hl1, Hl2.
    change (x :: cs) with ([x] ++ cs). now rewrite omap_app.
Qed.

(** One call: the CAT variables afterwards. *)
Lemma exec_trx x g o g' :
  exec' x g = Some (o, g') ->
  trx g' = match tunes MAX_CLIENTS x with
           | Some fr => Cat (fr + TUNED_FREQUENCY) 2
           | None => trx g
           end.
Proof.
  intros H. apply exec_inv in H. destruct x as [|fr n|i q n]; cbn [tunes].
  - destruct H as [_ H]. apply downmixer_init_frame in H as (_ & _ & _ & ->).
    destruct MAX_CLIENTS; [rewrite decide_True by reflexivity
                          |rewrite decide_False by discriminate]; reflexivity.
  - destruct H as [_ H].
    now apply downmixer_setFrequency_inv in H as (_ & _ & _ & _ & _ & -> & _).
  - destruct H as (i' & q' & _ & H).
    now apply downmixer_process_inv in H
      as (a & f & lo & _ & _ & _ & _ & _ & _ & _ & _ & -> & _).
Qed.

(** One call that names another channel leaves channel [c] alone. *)
Lemma exec_leaves_alone c x g o g' :
  leaves_alone c x -> exec' x g = Some (o, g') ->
  load (accu g') c = load (accu g) c /\ load (fcw g') c = load (fcw g) c /\
  sinetable g' = sinetable g /\ samplerate g' = samplerate g.
Proof.
  intros Hx H. apply exec_inv in H. destruct x as [|fr n|i q n].
  - destruct Hx.
  - destruct H as [_ H]. cbn in Hx.
    apply downmixer_setFrequency_inv in H
      as (Hn & -> & -> & -> & _ & _ & _ & ->).
    repeat split. apply load_insert_ne; [lia | assumption].
  - destruct H as (i' & q' & _ & H). cbn in Hx.
    apply downmixer_process_inv in H
      as (a & f & lo & Ha & _ & _ & _ & _ & -> & -> & -> & _ & -> & _).
    apply load_Some in Ha as [Ha _].
    repeat split. apply load_insert_ne; [lia | assumption].
Qed.

(** The outputs of a run: one pair of [short]s for every call of the
    mixer. *)
Lemma run_outputs cs : forall g os g',
  run' cs g = Some (os, g') ->
  length os = length (inputs cs) /\
  Forall (fun o => Int.is_short o.1 /\ Int.is_short o.2) os.
Proof.
  induction cs as [|x cs IH]; intros g os g' H.
  - injection H as <- _. split; [reflexivity | constructor].
  - rewrite run_cons in H.
    destruct (exec' x g) as [[o g1]|] eqn:E; [|discriminate].
    destruct (run' cs g1) as [[os1 g2]|] eqn:E'; [|discriminate].
    injection H as <- _. destruct (IH g1 os1 g2 E') as [Hl Hf].
    apply exec_inv in E. unfold inputs. cbn [omap list_omap].
    destruct x as [|fr n|i q n].
    + destruct E as [-> _]. auto.
    + destruct E as [-> _]. auto.
    + destruct E as (i' & q' & -> & E).
      apply downmixer_process_inv in E as (a & f & lo & _ & _ & _ & -> & -> & _).
      split; [cbn [length]; f_equal; exact Hl|].
      constructor; [|exact Hf]. split; apply short_range.
Qed.

End Logs.

(** ** The control word as a quotient of integers *)

(** An offset that is not negative: the quotient rounded down, modulo
    [2^32]. *)
Lemma control_word_floor fr rate :
  0 <= fr < 2 ^ 21 -> 0 < rate < 2 ^ 31 ->
  control_word fr rate = (fr * 2 ^ 32 / rate) mod 2 ^ 32.
Proof.
  intros Hfr Hrate.
  rewrite control_word_quot.
  - rewrite Z.quot_div_nonneg by lia. reflexivity.
  - lia.
  - change (2 ^ 31) with 2147483648 in Hrate.
    change (2 ^ 53) with 9007199254740992. lia.
Qed.

(** ... and below the sample rate the quotient itself. *)
Lemma control_word_below_rate fr rate :
  0 <= fr < rate -> fr < 2 ^ 21 -> rate < 2 ^ 31 ->
  control_word fr rate = fr * 2 ^ 32 / rate.
Proof.
  intros Hfr Hlt Hrate. rewrite control_word_floor by lia.
  apply Z.mod_small. split.
  - apply Z.div_pos; lia.
  - apply Z.div_lt_upper_bound; [lia|].
    apply Z.mul_lt_mono_pos_r; lia.
Qed.

(** ** The entries of the sine table *)

Lemma of_int_32768 :
  Double.of_int 32768 = S754_finite false 4503599627370496 (-37).
Proof. reflexivity. Qed.

(** Multiplying by 32768 adds 15 to the exponent. *)
Lemma mul_32768 s m e :
  Double.normal m -> -1089 <= e <= 956 ->
  Double.mul (S754_finite s m e) (Double.of_int 32768)
  = S754_finite s m (e + 15).
Proof.
  intros Hm He. rewrite of_int_32768.
  unfold Double.mul, Double.prec, Double.emax, SFmul.
  rewrite xorb_false_r, Pos2Z.inj_mul.
  change (Zpos 4503599627370496) with (2 ^ 52).
  replace (e + -37) with (e + 15 - 52) by lia.
  apply binary_round_aux_exact; [exact Hm | lia | lia].
Qed.

(** The sample of a sine below 1 in magnitude: the sine times 32768, cut
    toward zero. *)
Lemma sine_sample_below_one sin v s m e :
  sin v = S754_finite s m e -> Double.normal m -> -1074 <= e <= -53 ->
  sine_sample sin v = cond_Zopp s (Zpos m / 2 ^ (- e - 15)) /\
  0 <= Zpos m / 2 ^ (- e - 15) <= 32767.
Proof.
  intros Hv Hm He.
  assert (Hp : 0 < 2 ^ (- e - 15)) by (apply Z.pow_pos_nonneg; lia).
  assert (Hb : 0 <= Zpos m / 2 ^ (- e - 15) <= 32767).
  { split; [apply Z.div_pos; lia|].
    apply Z.lt_succ_r, Z.div_lt_upper_bound; [lia|].
    apply normal_bounds in Hm.
    assert (2 ^ 38 <= 2 ^ (- e - 15)) by (apply Z.pow_le_mono_r; lia).
    change (2 ^ 53) with (2 ^ 38 * 32768) in Hm.
    change (Z.succ 32767) with 32768. nia. }
  split; [|exact Hb].
  unfold sine_sample. rewrite Hv, mul_32768 by (assumption || lia).
  apply to_short_trunc.
  - unfold Double.trunc. destruct (e + 15) as [|k|k] eqn:Ek; [lia|lia|].
    replace (- e - 15) with (Zpos k) by lia. reflexivity.
  - unfold Int.is_short. destruct s; cbn [cond_Zopp]; lia.
Qed.

(** The sample of a sine that is 1 or -1: the product 32768 does not fit a
    [short], and both peaks are stored as -32768. *)
Lemma sine_sample_peak sin v :
  sin v = Double.of_int 1 \/ sin v = Double.of_int (-1) ->
  sine_sample sin v = -32768.
Proof. unfold sine_sample. intros [-> | ->]; reflexivity. Qed.

(** The table after [downmixer_init]. *)
Lemma downmixer_init_table M R T sin g g' i :
  downmixer_init M R T sin g = Some g' -> 0 <= i < SINETABSIZE ->
  load (sinetable g') i = Some (sine_sample sin (phase (Z.to_nat i))).
Proof.
  intros H Hi. rewrite downmixer_init_unfold in H.
  apply default_frequency_sinetable in H.
  rewrite sinetable_with_sinetable in H. rewrite H.
  now apply load_fill_sinetable.
Qed.

(** At the largest level shift the sample written back is no larger than
    the sample taken. *)
Lemma shift_15_bound i lo :
  Int.is_short i -> Int.is_short lo ->
  Z.abs (Int.short (Z.shiftr (Int.int (i * lo)) 15)) <= Z.abs i.
Proof.
  intros Hi Hlo. rewrite int_id by (now apply short_product).
  rewrite Z.shiftr_div_pow2 by lia. change (2 ^ 15) with 32768.
  unfold Int.is_short in *.
  assert (Hx : - Z.abs i <= i * lo / 32768 <= Z.abs i).
  { split.
    - apply Z.div_le_lower_bound; [lia | nia].
    - apply Z.lt_succ_r, Z.div_lt_upper_bound; [lia | nia]. }
  destruct (Z_le_gt_dec (i * lo / 32768) 32767) as [Hle|Hgt].
  - rewrite short_id by (unfold Int.is_short; lia). lia.
  - replace (i * lo / 32768) with 32768 by lia.
    change (Int.short 32768) with (-32768). lia.
Qed.

Lemma with_sht_wf M s g : wf M g -> 10 <= s <= 15 -> wf M (with_sht s g).
Proof. intros [H1 H2 H3 H4 H5 H6 H7] Hs. split; assumption. Qed.

(** ** The program of [Bench], run further *)

Lemma bench_loud_run :
  Bench.run [Process 32767 0 0] (Bench.tuned 300000 536870912)
  = Some ([(20521, 0)], Bench.shifted 300000 536870912).
Proof.
  rewrite run_cons. cbn [exec run]. rewrite bench_300k_loud by reflexivity.
  reflexivity.
Qed.

Lemma bench_loud_run_from_start :
  Bench.run [Init; SetFrequency 300000 0; Process 32767 0 0] Bench.start
  = Some ([(20521, 0)], Bench.shifted 300000 536870912).
Proof.
  rewrite (bench_run_app [Init; SetFrequency 300000 0] [Process 32767 0 0]).
  rewrite bench_300k, bench_loud_run. reflexivity.
Qed.

Lemma bench_sin_8192 :
  Libm.sin (phase (Z.to_nat 8192)) = S754_finite false 6369051672525152 (-53).
Proof. vm_compute. reflexivity. Qed.

Lemma bench_sin_16384 : Libm.sin (phase (Z.to_nat 16384)) = Double.of_int 1.
Proof. vm_compute. reflexivity. Qed.

(** ** The properties *)

(** X1. The phase of the oscillator. After [n] calls of [downmixer_process]
    on a valid channel, whatever the samples, the accumulator of the channel
    is [(a + n * f) mod 2^32], for [a] the accumulator and [f] the control
    word before; the control word is unchanged, every call writes back one
    pair, and when [n * f] is a multiple of [2^32] the accumulator is back
    at [a]: the oscillator is periodic. *)
Theorem oscillator_phase M R T sin c samples g a f :
  wf M g -> channel M c ->
  load (accu g) c = Some a -> load (fcw g) c = Some f ->
  exists os g',
    run M R T sin (process_stream c samples) g = Some (os, g') /\
    length os = length samples /\
    load (accu g') c
      = Some ((a + Z.of_nat (length samples) * f) mod 2 ^ 32) /\
    load (fcw g') c = Some f /\
    ((Z.of_nat (length samples) * f) mod 2 ^ 32 = 0 ->
     load (accu g') c = Some a).
Proof.
  intros Hwf Hc Ha Hf.
  destruct (process_stream_accu M R T sin c f samples g a Hwf Hc Ha Hf)
    as (os & g' & Hrun & _ & Hlen & Hacc & Hfcw & _).
  exists os, g'. split; [exact Hrun|]. split; [exact Hlen|].
  split; [exact Hacc|]. split; [now rewrite Hfcw|].
  intros Hp. rewrite Hacc. f_equal.
  rewrite Zplus_mod, Hp, Z.add_0_r, Zmod_mod.
  apply Z.mod_small. exact (load_Forall _ _ _ _ (wf_accu _ g Hwf) Ha).
Qed.

Lemma oscillator_phase_witness :
  exists os g',
    Bench.run (process_stream 0 (replicate 8 (1000, -500)))
      (Bench.tuned 300000 536870912) = Some (os, g') /\
    length os = length (replicate 8 (1000, -500)) /\
    load (accu g') 0
      = Some ((0 + Z.of_nat (length (replicate 8 (1000, -500))) * 536870912)
              mod 2 ^ 32) /\
    load (fcw g') 0 = Some 536870912 /\
    ((Z.of_nat (length (replicate 8 (1000, -500))) * 536870912) mod 2 ^ 32 = 0 ->
     load (accu g') 0 = Some 0).
Proof.
  apply (oscillator_phase Bench.MAX_CLIENTS Bench.NB_SAMPLE_RATE
           Bench.TUNED_FREQUENCY Libm.sin 0 (replicate 8 (1000, -500))
           (Bench.tuned 300000 536870912) 0 536870912).
  - exact bench_300k_wf.
  - unfold channel, Bench.MAX_CLIENTS. lia.
  - reflexivity.
  - reflexivity.
Defined.

(** X2. The mixer below its headroom. On a valid channel and a stream of
    samples that are all below [2^sht] in magnitude, the level shift stays
    as it is, nothing is printed, and the pair written back for sample [k]
    (counted from 0) is the pair taken times the table entry at the high 16
    bits of [(a + (k+1) * f) mod 2^32], divided by [2^sht] and rounded
    down, with no wrap-around. *)
Theorem mixer_below_headroom M R T sin c samples g a f :
  wf M g -> channel M c ->
  load (accu g) c = Some a -> load (fcw g) c = Some f ->
  Forall (fun s => Z.abs s.1 < 2 ^ sht g /\ Z.abs s.2 < 2 ^ sht g) samples ->
  exists os g',
    run M R T sin (process_stream c samples) g = Some (os, g') /\
    sht g' = sht g /\ stdout g' = stdout g /\
    forall k i q, samples !! k = Some (i, q) ->
      exists lo,
        load (sinetable g)
          (Z.shiftr ((a + (Z.of_nat k + 1) * f) mod 2 ^ 32) 16) = Some lo /\
        os !! k = Some (i * lo / 2 ^ sht g, q * lo / 2 ^ sht g).
Proof.
  revert g a.
  induction samples as [|[i q] samples IH]; intros g a Hwf Hc Ha Hf Hs.
  - exists [], g. cbn [process_stream map run].
    repeat split. intros k i q H. discriminate H.
  - inversion Hs as [|? ? [Hi Hq] Hs']; subst. cbn [fst snd] in Hi, Hq.
    cbn [process_stream map fst snd]. rewrite (run_process M R T sin).
    destruct (downmixer_process_spec M i q c g Hwf Hc)
      as (a0 & f0 & lo & Ha0 & Hf0 & Ht & Hlo & E).
    assert (a0 = a) by congruence. assert (f0 = f) by congruence. subst a0 f0.
    pose proof (wf_sht _ g Hwf) as Hsht.
    destruct (mix_headroom i lo (sht g) Hlo Hsht Hi) as [Ei Eno].
    destruct (mix_headroom q lo (sht g) Hlo Hsht Hq) as [Eq _].
    rewrite Ei, Eq, Eno in E. cbn [andb] in E. rewrite E.
    match type of E with _ = Some (_, _, ?h) => set (g1 := h) in * end.
    assert (Hwf1 : wf M g1).
    { eapply downmixer_process_wf; [exact Hwf | exact E]. }
    assert (Hb : 0 <= c < Z.of_nat (length (accu g)))
      by (now apply load_Some in Ha as [Ha _]).
    destruct (IH g1 ((a + f) mod 2 ^ 32) Hwf1 Hc)
      as (os & g' & Hrun & Hsh & Hout & Hk).
    { subst g1. cbn [accu]. now apply load_insert_eq. }
    { subst g1. cbn [fcw]. exact Hf. }
    { subst g1. cbn [sht]. exact Hs'. }
    fold (process_stream c samples). rewrite Hrun.
    eexists _, g'. split; [reflexivity|].
    split; [now subst g1|]. split; [now subst g1|].
    intros [|k] i' q' Hl.
    + injection Hl as <- <-. exists lo. split; [|reflexivity].
      rewrite <- Ht. do 3 f_equal. cbn. lia.
    + cbn [lookup list_lookup] in Hl. destruct (Hk k i' q' Hl) as (lo' & Hlo' & Ho).
      exists lo'. split; [|exact Ho].
      rewrite <- Hlo'. subst g1. cbn [sinetable]. do 2 f_equal.
      rewrite Zplus_mod_idemp_l. f_equal. lia.
Qed.

Lemma mixer_below_headroom_witness :
  exists os g',
    Bench.run (process_stream 0 [(1000, -500); (-1023, 1023)])
      (Bench.tuned 300000 536870912) = Some (os, g') /\
    sht g' = sht (Bench.tuned 300000 536870912) /\
    stdout g' = stdout (Bench.tuned 300000 536870912) /\
    forall k i q, [(1000, -500); (-1023, 1023)] !! k = Some (i, q) ->
      exists lo,
        load (sinetable (Bench.tuned 300000 536870912))
          (Z.shiftr ((0 + (Z.of_nat k + 1) * 536870912) mod 2 ^ 32) 16)
          = Some lo /\
        os !! k = Some (i * lo / 2 ^ sht (Bench.tuned 300000 536870912),
                        q * lo / 2 ^ sht (Bench.tuned 300000 536870912)).
Proof.
  apply (mixer_below_headroom Bench.MAX_CLIENTS Bench.NB_SAMPLE_RATE
           Bench.TUNED_FREQUENCY Libm.sin 0 [(1000, -500); (-1023, 1023)]
           (Bench.tuned 300000 536870912) 0 536870912).
  - exact bench_300k_wf.
  - unfold channel, Bench.MAX_CLIENTS. lia.
  - reflexivity.
  - reflexivity.
  - cbn [sht Bench.tuned fst snd]. change (2 ^ 10) with 1024.
    repeat constructor; cbn [fst snd]; lia.
Defined.

(** X3. The channels do not disturb each other's oscillators. Calls of
    [downmixer_setFrequency] and [downmixer_process] for other channels, in
    any number and order, leave the accumulator and the control word of
    channel [c] as they were, and the table and the sample rate too. *)
Theorem channels_are_separate M R T sin c cs g os g' :
  Forall (leaves_alone c) cs ->
  run M R T sin cs g = Some (os, g') ->
  load (accu g') c = load (accu g) c /\ load (fcw g') c = load (fcw g) c /\
  sinetable g' = sinetable g /\ samplerate g' = samplerate g.
Proof.
  revert g os g'.
  induction cs as [|x cs IH]; intros g os g' Hcs H.
  - injection H as _ <-. auto.
  - inversion Hcs as [|? ? Hx Hcs']; subst. rewrite run_cons in H.
    destruct (exec M R T sin x g) as [[o g1]|] eqn:E; [|discriminate].
    destruct (run M R T sin cs g1) as [[os1 g2]|] eqn:E'; [|discriminate].
    injection H as _ <-.
    destruct (exec_leaves_alone M R T sin c x g o g1 Hx E) as (H1 & H2 & H3 & H4).
    destruct (IH g1 os1 g2 Hcs' E') as (H5 & H6 & H7 & H8).
    repeat split; congruence.
Qed.

Lemma channels_are_separate_witness :
  load (accu (Bench.shifted 300000 536870912)) 1
    = load (accu (Bench.tuned 300000 536870912)) 1 /\
  load (fcw (Bench.shifted 300000 536870912)) 1
    = load (fcw (Bench.tuned 300000 536870912)) 1 /\
  sinetable (Bench.shifted 300000 536870912)
    = sinetable (Bench.tuned 300000 536870912) /\
  samplerate (Bench.shifted 300000 536870912)
    = samplerate (Bench.tuned 300000 536870912).
Proof.
  apply (channels_are_separate Bench.MAX_CLIENTS Bench.NB_SAMPLE_RATE
           Bench.TUNED_FREQUENCY Libm.sin 1 [Process 32767 0 0]
           (Bench.tuned 300000 536870912) [(20521, 0)]
           (Bench.shifted 300000 536870912)).
  - repeat constructor. discriminate.
  - exact bench_loud_run.
Defined.

(** X4. The record of the level shifter. Whatever calls the program has
    made since its start, the lines [Audio level shifter adapter to:] that
    it has printed carry, in this order, the values 10, 11, ... up to the
    level shift of now less one: each line shows the shift before it was
    raised, one line for every raise, and there are never more than five. *)
Theorem level_shift_record M R T sin x cs os g :
  run M R T sin cs (program_start M x) = Some (os, g) ->
  level_messages (stdout g) = seqZ 10 (sht g - 10) /\
  (length (level_messages (stdout g)) <= 5)%nat.
Proof.
  intros H.
  destruct (run_level M R T sin cs (program_start M x) os g) as [Hs Hl];
    [cbn; lia | exact H |].
  cbn [program_start sht stdout] in Hs, Hl.
  change (level_messages []) with (@nil Z) in Hl. rewrite app_nil_l in Hl.
  split; [exact Hl|]. rewrite Hl, length_seqZ. lia.
Qed.

Lemma level_shift_record_witness :
  level_messages (stdout (Bench.shifted 300000 536870912))
    = seqZ 10 (sht (Bench.shifted 300000 536870912) - 10) /\
  (length (level_messages (stdout (Bench.shifted 300000 536870912))) <= 5)%nat.
Proof.
  apply (level_shift_record Bench.MAX_CLIENTS Bench.NB_SAMPLE_RATE
           Bench.TUNED_FREQUENCY Libm.sin (Cat 0 0)
           [Init; SetFrequency 300000 0; Process 32767 0 0] [(20521, 0)]).
  exact bench_loud_run_from_start.
Defined.

(** X5. The record of the tuner. A run only appends to what was printed,
    and the lines [set mixer qrg:] that it appends are, in order, those of
    its calls of [downmixer_setFrequency] with an offset other than 10000:
    [downmixer_init] prints nothing, and neither does a call with the
    offset 10000 nor [downmixer_process]. *)
Theorem tuning_record M R T sin cs g os g' :
  run M R T sin cs g = Some (os, g') ->
  exists l,
    stdout g' = stdout g ++ l /\
    qrg_messages l = omap logged cs /\
    qrg_messages (stdout g') = qrg_messages (stdout g) ++ omap logged cs.
Proof.
  intros H. destruct (run_qrg M R T sin cs g os g' H) as (l & Ho & Hl).
  exists l. split; [exact Ho|]. split; [exact Hl|].
  rewrite Ho. unfold qrg_messages in *. now rewrite omap_app, Hl.
Qed.

Lemma tuning_record_witness :
  exists l,
    stdout (Bench.shifted 300000 536870912) = stdout Bench.start ++ l /\
    qrg_messages l
      = omap logged [Init; SetFrequency 300000 0; Process 32767 0 0] /\
    qrg_messages (stdout (Bench.shifted 300000 536870912))
      = qrg_messages (stdout Bench.start)
        ++ omap logged [Init; SetFrequency 300000 0; Process 32767 0 0].
Proof.
  apply (tuning_record Bench.MAX_CLIENTS Bench.NB_SAMPLE_RATE
           Bench.TUNED_FREQUENCY Libm.sin
           [Init; SetFrequency 300000 0; Process 32767 0 0] Bench.start
           [(20521, 0)]).
  exact bench_loud_run_from_start.
Defined.

(** X6. The CAT variables follow the last tuning. After a run,
    [trx_frequency] is the offset of the last call of
    [downmixer_setFrequency] plus [TUNED_FREQUENCY], for whichever channel
    that call was, and [ser_command] is 2; [downmixer_init] counts as a call
    with the offset 10000 when there is a client; a run without either
    leaves both variables as they were. *)
Theorem cat_follows_last_tuning M R T sin cs g os g' :
  run M R T sin cs g = Some (os, g') ->
  trx g' = match last (omap (tunes M) cs) with
           | Some fr => Cat (fr + T) 2
           | None => trx g
           end.
Proof.
  revert g os g'.
  induction cs as [|x cs IH]; intros g os g' H.
  - now injection H as _ <-.
  - rewrite run_cons in H.
    destruct (exec M R T sin x g) as [[o g1]|] eqn:E; [|discriminate].
    destruct (run M R T sin cs g1) as [[os1 g2]|] eqn:E'; [|discriminate].
    injection H as _ <-.
    rewrite (IH g1 os1 g2 E'), (exec_trx M R T sin x g o g1 E).
    cbn [omap list_omap]. destruct (tunes M x) as [fr|].
    + rewrite last_cons. now destruct (last _).
    + reflexivity.
Qed.

Lemma cat_follows_last_tuning_witness :
  trx (Bench.shifted 300000 536870912)
  = match last (omap (tunes Bench.MAX_CLIENTS)
                  [Init; SetFrequency 300000 0; Process 32767 0 0]) with
    | Some fr => Cat (fr + Bench.TUNED_FREQUENCY) 2
    | None => trx Bench.start
    end.
Proof.
  apply (cat_follows_last_tuning Bench.MAX_CLIENTS Bench.NB_SAMPLE_RATE
           Bench.TUNED_FREQUENCY Libm.sin
           [Init; SetFrequency 300000 0; Process 32767 0 0] Bench.start
           [(20521, 0)]).
  exact bench_loud_run_from_start.
Defined.

(** X7. Initialising again. On well-formed globals [downmixer_init]
    returns; afterwards every channel has the control word of 10 kHz at
    [NB_SAMPLE_RATE] and a zero accumulator, whatever they were; the level
    shift is not reset and nothing is printed; and a second call right
    after changes nothing more. *)
Theorem downmixer_init_again M R T sin g :
  wf M g ->
  exists g',
    downmixer_init M R T sin g = Some g' /\
    (forall c, channel M c ->
       load (fcw g') c = Some (control_word 10000 R) /\
       load (accu g') c = Some 0) /\
    samplerate g' = R /\ sht g' = sht g /\ stdout g' = stdout g /\
    downmixer_init M R T sin g' = Some g'.
Proof.
  intros Hwf.
  pose proof (wf_fcw_size M g Hwf) as Hf.
  pose proof (wf_accu_size M g Hwf) as Ha.
  clear Hwf. destruct M as [|m].
  - exists (with_sinetable
              (fill_sinetable sin (Z.to_nat SINETABSIZE) Double.zero)
              (with_samplerate R g)).
    rewrite !downmixer_init_unfold. cbn [default_frequency].
    generalize (fill_sinetable sin (Z.to_nat SINETABSIZE) Double.zero).
    intros t. split; [reflexivity|].
    split; [intros c Hc; unfold channel in Hc; lia|]. auto.
  - assert (HM : S m <> O) by discriminate.
    eexists. split; [exact (downmixer_init_eq (S m) R T sin g HM Hf Ha)|].
    cbn [fcw accu samplerate sht stdout].
    split; [intros c Hc; split; apply load_replicate; exact Hc|].
    do 3 (split; [reflexivity|]).
    rewrite downmixer_init_eq
      by (try assumption; cbn [fcw accu]; apply length_replicate).
    reflexivity.
Qed.

Lemma downmixer_init_again_witness :
  exists g',
    downmixer_init Bench.MAX_CLIENTS Bench.NB_SAMPLE_RATE
      Bench.TUNED_FREQUENCY Libm.sin (Bench.shifted 300000 536870912)
      = Some g' /\
    (forall c, channel Bench.MAX_CLIENTS c ->
       load (fcw g') c = Some (control_word 10000 Bench.NB_SAMPLE_RATE) /\
       load (accu g') c = Some 0) /\
    samplerate g' = Bench.NB_SAMPLE_RATE /\
    sht g' = sht (Bench.shifted 300000 536870912) /\
    stdout g' = stdout (Bench.shifted 300000 536870912) /\
    downmixer_init Bench.MAX_CLIENTS Bench.NB_SAMPLE_RATE
      Bench.TUNED_FREQUENCY Libm.sin g' = Some g'.
Proof.
  apply (downmixer_init_again Bench.MAX_CLIENTS Bench.NB_SAMPLE_RATE
           Bench.TUNED_FREQUENCY Libm.sin (Bench.shifted 300000 536870912)).
  exact (run_wf Bench.MAX_CLIENTS Bench.NB_SAMPLE_RATE Bench.TUNED_FREQUENCY
           Libm.sin [Process 32767 0 0] (Bench.tuned 300000 536870912)
           [(20521, 0)] (Bench.shifted 300000 536870912)
           bench_300k_wf bench_loud_run).
Defined.

(** X8. The client number is not checked. On well-formed globals,
    [increment_NCO], [downmixer_process] and [downmixer_setFrequency] stay
    within the bounds of the arrays exactly when the client number is one of
    [0 .. MAX_CLIENTS-1]: with such a number every access is in bounds, the
    one to the sine table included, and with any other the functions access
    [accu] or [fcw] outside their bounds. *)
Theorem client_number_unchecked M T isample qsample fr c g :
  wf M g ->
  (is_Some (increment_NCO c g) <-> channel M c) /\
  (is_Some (downmixer_process isample qsample c g) <-> channel M c) /\
  (is_Some (downmixer_setFrequency T fr c g) <-> channel M c).
Proof.
  intros Hwf. unfold channel.
  rewrite <- (wf_accu_size M g Hwf) at 1 2.
  rewrite <- (wf_fcw_size M g Hwf).
  split; [|split]; split.
  - intros [r Hr]. exact (increment_NCO_bounds c g r Hr).
  - intros Hc.
    destruct (increment_NCO_total M c g Hwf) as (a & f & lo & _ & _ & _ & ->);
      [unfold channel; rewrite <- (wf_accu_size M g Hwf); exact Hc | eauto].
  - intros [[[i' q'] g'] Hr].
    apply downmixer_process_inv in Hr as (a & f & lo & Ha & _).
    now apply load_Some in Ha as [Ha _].
  - intros Hc.
    destruct (downmixer_process_total M isample qsample c g Hwf) as [r ->];
      [unfold channel; rewrite <- (wf_accu_size M g Hwf); exact Hc | eauto].
  - intros [g' Hr].
    now apply downmixer_setFrequency_inv in Hr as (Hc & _).
  - intros Hc.
    destruct (downmixer_setFrequency_total T fr c g Hc) as [g' ->]. eauto.
Qed.

Lemma client_number_unchecked_witness :
  (is_Some (increment_NCO 2 Bench.ready) <-> channel Bench.MAX_CLIENTS 2) /\
  (is_Some (downmixer_process 1000 (-500) 2 Bench.ready)
   <-> channel Bench.MAX_CLIENTS 2) /\
  (is_Some (downmixer_setFrequency Bench.TUNED_FREQUENCY 300000 2 Bench.ready)
   <-> channel Bench.MAX_CLIENTS 2).
Proof.
  apply (client_number_unchecked Bench.MAX_CLIENTS Bench.TUNED_FREQUENCY
           1000 (-500) 300000 2 Bench.ready).
  exact bench_ready_wf.
Defined.

(** X9. Runs stay in bounds. From well-formed globals (those of the start
    of the program are), every sequence of calls with arguments of their C
    types and client numbers in [0 .. MAX_CLIENTS-1] runs to its end with
    every array access in bounds; the globals stay well formed, and the run
    writes back one pair of values in [-32768, 32767] for every call of
    [downmixer_process]. *)
Theorem runs_stay_in_bounds M R T sin cs g :
  wf M g -> Forall (valid_call M) cs ->
  exists os g',
    run M R T sin cs g = Some (os, g') /\ wf M g' /\
    length os = length (inputs cs) /\
    Forall (fun o => Int.is_short o.1 /\ Int.is_short o.2) os.
Proof.
  intros Hwf Hcs.
  destruct (run_total M R T sin cs g Hwf Hcs) as [[os g'] E].
  exists os, g'. split; [exact E|].
  split; [exact (run_wf M R T sin cs g os g' Hwf E)|].
  exact (run_outputs M R T sin cs g os g' E).
Qed.

Lemma runs_stay_in_bounds_witness :
  exists os g',
    Bench.run [Init; SetFrequency (-10000) 1; Process 1000 (-500) 1;
               Process 32767 (-32768) 0] Bench.start = Some (os, g') /\
    wf Bench.MAX_CLIENTS g' /\
    length os = length (inputs [Init; SetFrequency (-10000) 1;
                                Process 1000 (-500) 1;
                                Process 32767 (-32768) 0]) /\
    Forall (fun o => Int.is_short o.1 /\ Int.is_short o.2) os.
Proof.
  apply (runs_stay_in_bounds Bench.MAX_CLIENTS Bench.NB_SAMPLE_RATE
           Bench.TUNED_FREQUENCY Libm.sin
           [Init; SetFrequency (-10000) 1; Process 1000 (-500) 1;
            Process 32767 (-32768) 0] Bench.start).
  - apply program_start_wf.
  - unfold valid_call, channel, Int.is_int, Int.is_short, Bench.MAX_CLIENTS.
    repeat constructor; lia.
Defined.

(** X10. The level shift is raised only after an overflow. When a call of
    [downmixer_process] changes the level shift, the shifted product of the
    I sample was above 32767: the I sample written back by this very call
    is that product wrapped to 16 bits, which is less than the product (it
    is not clipped to 32767); the sample taken was at least [2^sht] in
    magnitude; the shift went up by one, and one line with the old shift
    was printed. *)
Theorem level_shift_follows_overflow M isample qsample c g lo g1 i' q' g' :
  wf M g -> Int.is_short isample ->
  increment_NCO c g = Some (lo, g1) ->
  downmixer_process isample qsample c g = Some (i', q', g') ->
  sht g' <> sht g ->
  32767 < isample * lo / 2 ^ sht g /\
  i' = Int.short (isample * lo / 2 ^ sht g) /\
  i' < isample * lo / 2 ^ sht g /\
  2 ^ sht g <= Z.abs isample /\
  sht g' = sht g + 1 /\
  stdout g' = stdout g ++ [level_shifter_adapted (sht g)].
Proof.
  intros Hwf Hi E H Hne.
  apply increment_NCO_inv in E as (a & f & Ha & Hf & Hlo & _).
  apply downmixer_process_inv in H
    as (a' & f' & lo' & Ha' & Hf' & Hlo' & -> & _ & _ & _ & _ & _ & _ & H).
  assert (a' = a) by congruence. assert (f' = f) by congruence. subst a' f'.
  assert (lo' = lo) by congruence. subst lo'.
  destruct H as [[Hs _]|(Hgt & Hlt & Hs & Ho)]; [congruence|].
  pose proof (wf_sht M g Hwf) as Hsht.
  assert (Hl : Int.is_short lo)
    by exact (load_Forall _ _ _ _ (wf_table M g Hwf) Hlo).
  rewrite int_id in Hgt |- * by (now apply short_product).
  rewrite Z.shiftr_div_pow2 in Hgt |- * by lia.
  rewrite int_id in Hs by (unfold Int.is_int; lia).
  assert (Hp : 0 < 2 ^ sht g) by (apply Z.pow_pos_nonneg; lia).
  split; [exact Hgt|]. split; [reflexivity|].
  split; [pose proof (short_range (isample * lo / 2 ^ sht g)) as Hr;
          unfold Int.is_short in Hr; lia|].
  split; [|split; assumption].
  assert (Hx : 32768 * 2 ^ sht g <= isample * lo).
  { destruct (Z_le_gt_dec (32768 * 2 ^ sht g) (isample * lo)) as [|Hc];
      [assumption|exfalso].
    assert (isample * lo / 2 ^ sht g < 32768)
      by (apply Z.div_lt_upper_bound; lia).
    lia. }
  unfold Int.is_short in Hl. nia.
Qed.

Lemma level_shift_follows_overflow_witness :
  32767 < 32767 * 23170 / 2 ^ sht (Bench.tuned 300000 536870912) /\
  20521 = Int.short (32767 * 23170 / 2 ^ sht (Bench.tuned 300000 536870912)) /\
  20521 < 32767 * 23170 / 2 ^ sht (Bench.tuned 300000 536870912) /\
  2 ^ sht (Bench.tuned 300000 536870912) <= Z.abs 32767 /\
  sht (Bench.shifted 300000 536870912)
    = sht (Bench.tuned 300000 536870912) + 1 /\
  stdout (Bench.shifted 300000 536870912)
    = stdout (Bench.tuned 300000 536870912) ++ [level_shifter_adapted
        (sht (Bench.tuned 300000 536870912))].
Proof.
  apply (level_shift_follows_overflow Bench.MAX_CLIENTS 32767 0 0
           (Bench.tuned 300000 536870912) 23170
           (with_accu [536870912; 0] (Bench.tuned 300000 536870912))
           20521 0 (Bench.shifted 300000 536870912)).
  - exact bench_300k_wf.
  - unfold Int.is_short. lia.
  - exact bench_300k_NCO.
  - apply bench_300k_loud. reflexivity.
  - discriminate.
Defined.

(** X11. At the largest level shift the mixer attenuates. With the level
    shift at 15, a call of [downmixer_process] on a valid channel writes
    back samples that are no larger in magnitude than the samples it took,
    leaves the shift at 15 and prints nothing. *)
Theorem full_shift_attenuates M isample qsample c g :
  wf M g -> channel M c -> Int.is_short isample -> Int.is_short qsample ->
  sht g = 15 ->
  exists i' q' g',
    downmixer_process isample qsample c g = Some (i', q', g') /\
    Z.abs i' <= Z.abs isample /\ Z.abs q' <= Z.abs qsample /\
    sht g' = 15 /\ stdout g' = stdout g.
Proof.
  intros Hwf Hc Hi Hq Hs.
  destruct (downmixer_process_spec M isample qsample c g Hwf Hc)
    as (a & f & lo & _ & _ & _ & Hlo & E).
  rewrite Hs in E. rewrite andb_false_r in E.
  eexists _, _, _. split; [exact E|]. cbn [sht stdout].
  split; [now apply shift_15_bound|]. split; [now apply shift_15_bound|].
  auto.
Qed.

Lemma full_shift_attenuates_witness :
  exists i' q' g',
    downmixer_process (-32768) 32767 0
      (with_sht 15 (Bench.tuned 300000 536870912)) = Some (i', q', g') /\
    Z.abs i' <= Z.abs (-32768) /\ Z.abs q' <= Z.abs 32767 /\
    sht g' = 15 /\
    stdout g' = stdout (with_sht 15 (Bench.tuned 300000 536870912)).
Proof.
  apply (full_shift_attenuates Bench.MAX_CLIENTS (-32768) 32767 0
           (with_sht 15 (Bench.tuned 300000 536870912))).
  - apply with_sht_wf; [exact bench_300k_wf | lia].
  - unfold channel, Bench.MAX_CLIENTS. lia.
  - unfold Int.is_short. lia.
  - unfold Int.is_short. lia.
  - reflexivity.
Defined.

(** X12. The control word gives the offset back. For an offset from 0 up
    to the sample rate (and below [2^21] Hz, at a rate below [2^31]), the
    control word [w] that [downmixer_setFrequency] stores makes the
    oscillator run at [w * samplerate / 2^32] Hz, which is never above the
    offset asked for and less than [samplerate / 2^32] Hz below it; rounded
    up to an integer it is the offset again. *)
Theorem control_word_round_trip T fr c g g' w :
  0 <= fr < samplerate g -> fr < 2 ^ 21 -> samplerate g < 2 ^ 31 ->
  downmixer_setFrequency T fr c g = Some g' ->
  load (fcw g') c = Some w ->
  fr * 2 ^ 32 - samplerate g < w * samplerate g <= fr * 2 ^ 32 /\
  - (- (w * samplerate g) / 2 ^ 32) = fr.
Proof.
  intros Hfr Hlt Hrate H Hw.
  apply downmixer_setFrequency_inv in H as (Hc & _ & _ & _ & _ & _ & _ & Hf).
  rewrite Hf, load_insert_eq in Hw by exact Hc. injection Hw as <-.
  rewrite control_word_below_rate by assumption.
  set (r := samplerate g) in *.
  change (2 ^ 31) with 2147483648 in Hrate.
  change (2 ^ 32) with 4294967296.
  pose proof (Z.div_mod (fr * 4294967296) r ltac:(lia)) as Hd.
  pose proof (Z.mod_pos_bound (fr * 4294967296) r ltac:(lia)) as Hm.
  set (q := fr * 4294967296 / r) in *.
  assert (Hb : fr * 4294967296 - r < q * r <= fr * 4294967296) by lia.
  split; [exact Hb|].
  assert (Hq : - (q * r) / 4294967296 = - fr); [|lia].
  symmetry. apply (Z.div_unique _ _ _ (fr * 4294967296 - q * r)); lia.
Qed.

Lemma control_word_round_trip_witness :
  1 * 2 ^ 32 - samplerate Bench.ready
    < control_word 1 2400000 * samplerate Bench.ready <= 1 * 2 ^ 32 /\
  - (- (control_word 1 2400000 * samplerate Bench.ready) / 2 ^ 32) = 1.
Proof.
  apply (control_word_round_trip Bench.TUNED_FREQUENCY 1 0 Bench.ready
           (Bench.tuned 1 (control_word 1 2400000)) (control_word 1 2400000)).
  - cbn [samplerate Bench.ready]. lia.
  - reflexivity.
  - reflexivity.
  - apply bench_setFrequency. discriminate.
  - reflexivity.
Defined.

(** X13. The tuner tells all offsets apart. Between 0 and the sample rate
    (below [2^21] Hz, at a rate below [2^31]) a larger offset gets a larger
    control word, by at least 2: no two offsets share a control word. *)
Theorem control_word_increasing fr1 fr2 rate :
  0 <= fr1 -> fr1 < fr2 -> fr2 < rate -> fr2 < 2 ^ 21 -> rate < 2 ^ 31 ->
  control_word fr1 rate + 2 <= control_word fr2 rate.
Proof.
  intros H1 H12 H2 Hlt Hrate.
  rewrite !control_word_below_rate by lia.
  change (2 ^ 31) with 2147483648 in Hrate.
  change (2 ^ 32) with 4294967296.
  replace (fr1 * 4294967296 / rate + 2)
    with ((fr1 * 4294967296 + 2 * rate) / rate)
    by (rewrite Z.div_add by lia; reflexivity).
  apply Z.div_le_mono; lia.
Qed.

Lemma control_word_increasing_witness :
  control_word 1 2400000 + 2 <= control_word 2 2400000.
Proof.
  apply (control_word_increasing 1 2 2400000); reflexivity || discriminate.
Defined.

(** X14. A negative offset turns the oscillator backwards. For an offset
    below [2^21] Hz in magnitude (at a rate below [2^31]), the control
    words of the offset and of its negative add up to 0 modulo [2^32], as
    the conversion is compiled for x86-64: the phase of the one oscillator
    goes back by what the phase of the other advances. *)
Theorem control_word_negative fr rate :
  Z.abs fr < 2 ^ 21 -> 0 < rate < 2 ^ 31 ->
  (control_word fr rate + control_word (- fr) rate) mod 2 ^ 32 = 0.
Proof.
  intros Hfr Hrate.
  assert (Hr : 0 < rate < 2 ^ 53).
  { change (2 ^ 31) with 2147483648 in Hrate.
    change (2 ^ 53) with 9007199254740992. lia. }
  rewrite !control_word_quot by (assumption || lia).
  rewrite <- Zplus_mod.
  rewrite Z.mul_opp_l, Z.quot_opp_l by lia.
  rewrite Z.add_opp_diag_r. reflexivity.
Qed.

Lemma control_word_negative_witness :
  (control_word 10000 2400000 + control_word (- 10000) 2400000) mod 2 ^ 32 = 0.
Proof.
  apply (control_word_negative 10000 2400000).
  - reflexivity.
  - split; reflexivity.
Defined.

(** X15. Offsets a sample rate apart are one. For an offset that is not
    negative, adding a multiple of the sample rate (the sum below [2^21]
    Hz, the rate below [2^31]) does not change the control word, as the
    conversion is compiled for x86-64: the quotient beyond [2^32] wraps
    around. *)
Theorem control_word_aliases fr k rate :
  0 <= fr -> 0 <= k -> fr + k * rate < 2 ^ 21 -> 0 < rate < 2 ^ 31 ->
  control_word (fr + k * rate) rate = control_word fr rate.
Proof.
  intros Hfr Hk Hlt Hrate.
  assert (0 <= k * rate) by (apply Z.mul_nonneg_nonneg; lia).
  rewrite !control_word_floor by lia.
  replace ((fr + k * rate) * 2 ^ 32) with (fr * 2 ^ 32 + k * 2 ^ 32 * rate)
    by ring.
  rewrite Z.div_add by lia.
  rewrite Zplus_mod, Z.mod_mul, Z.add_0_r, Zmod_mod by lia. reflexivity.
Qed.

Lemma control_word_aliases_witness :
  control_word (10000 + 3 * 600000) 600000 = control_word 10000 600000.
Proof.
  apply (control_word_aliases 10000 3 600000).
  - discriminate.
  - discriminate.
  - reflexivity.
  - split; reflexivity.
Defined.

(** X16. The mixer before its initialisation. If [downmixer_process] is
    called on a valid channel before [downmixer_init] ever ran, the sine
    table is still all zero: every call writes back [(0, 0)], whatever the
    samples, and changes none of the globals. *)
Theorem silence_before_init M R T sin x c samples :
  channel M c ->
  run M R T sin (process_stream c samples) (program_start M x)
  = Some (replicate (length samples) (0, 0), program_start M x).
Proof.
  intros Hc. induction samples as [|[i q] samples IH]; [reflexivity|].
  cbn [process_stream map fst snd]. rewrite run_process.
  rewrite process_before_init by exact Hc.
  fold (process_stream c samples). rewrite IH. reflexivity.
Qed.

Lemma silence_before_init_witness :
  Bench.run (process_stream 1 [(1000, -500); (32767, -32768)]) Bench.start
  = Some (replicate (length [(1000, -500); (32767, -32768)]) (0, 0),
          Bench.start).
Proof.
  apply (silence_before_init Bench.MAX_CLIENTS Bench.NB_SAMPLE_RATE
           Bench.TUNED_FREQUENCY Libm.sin (Cat 0 0) 1
           [(1000, -500); (32767, -32768)]).
  unfold channel, Bench.MAX_CLIENTS. lia.
Defined.

(** X17. The table entries below the peaks. Where the sine that the C
    library returns for the phase of entry [i] is a normal double
    [m * 2^e] below 1 in magnitude, [downmixer_init] stores its magnitude
    times 32768, rounded down, under the sign of the sine: the product with
    32768 is exact, the conversion cuts it toward zero, and the magnitude
    stored is at most 32767. *)
Theorem sinetable_below_peak M R T sin g g' i s m e :
  downmixer_init M R T sin g = Some g' -> 0 <= i < SINETABSIZE ->
  sin (phase (Z.to_nat i)) = S754_finite s m e ->
  Double.normal m -> -1074 <= e <= -53 ->
  load (sinetable g') i = Some (cond_Zopp s (Zpos m / 2 ^ (- e - 15))) /\
  0 <= Zpos m / 2 ^ (- e - 15) <= 32767.
Proof.
  intros H Hi Hv Hm He.
  rewrite (downmixer_init_table M R T sin g g' i H Hi).
  destruct (sine_sample_below_one sin _ s m e Hv Hm He) as [-> Hb]. auto.
Qed.

Lemma sinetable_below_peak_witness :
  load (sinetable Bench.ready) 8192
    = Some (cond_Zopp false (Zpos 6369051672525152 / 2 ^ (- -53 - 15))) /\
  0 <= Zpos 6369051672525152 / 2 ^ (- -53 - 15) <= 32767.
Proof.
  apply (sinetable_below_peak Bench.MAX_CLIENTS Bench.NB_SAMPLE_RATE
           Bench.TUNED_FREQUENCY Libm.sin Bench.start Bench.ready 8192
           false 6369051672525152 (-53)).
  - exact bench_downmixer_init.
  - unfold SINETABSIZE. lia.
  - exact bench_sin_8192.
  - reflexivity.
  - lia.
Defined.

(** X18. The peaks of the table. Where the sine that the C library returns
    for the phase of entry [i] is exactly 1 or exactly -1, the product with
    32768 is 32768 or -32768; 32768 is no [short], and as the conversion is
    compiled for x86-64, [downmixer_init] stores -32768 at both peaks: the
    positive peak of the table has the sign of the negative one. *)
Theorem sinetable_peaks M R T sin g g' i :
  downmixer_init M R T sin g = Some g' -> 0 <= i < SINETABSIZE ->
  sin (phase (Z.to_nat i)) = Double.of_int 1 \/
  sin (phase (Z.to_nat i)) = Double.of_int (-1) ->
  load (sinetable g') i = Some (-32768).
Proof.
  intros H Hi Hv.
  rewrite (downmixer_init_table M R T sin g g' i H Hi).
  f_equal. now apply sine_sample_peak.
Qed.

Lemma sinetable_peaks_witness : load (sinetable Bench.ready) 16384 = Some (-32768).
Proof.
  apply (sinetable_peaks Bench.MAX_CLIENTS Bench.NB_SAMPLE_RATE
           Bench.TUNED_FREQUENCY Libm.sin Bench.start Bench.ready 16384).
  - exact bench_downmixer_init.
  - unfold SINETABSIZE. lia.
  - left. exact bench_sin_16384.
Defined.

(** X19. Retuning keeps the phase. [downmixer_setFrequency] does not
    touch the accumulator: when a channel is retuned in the middle of a
    stream, its oscillator goes on from the phase it had reached. After [n1]
    samples at the control word [f], the retuning to [fr], and [n2] more
    samples, the accumulator is [a + n1 * f + n2 * w] modulo [2^32], with
    [w] the control word of [fr]. *)
Theorem retuning_keeps_phase M R T sin c fr s1 s2 g a f :
  wf M g -> channel M c ->
  load (accu g) c = Some a -> load (fcw g) c = Some f ->
  exists os g',
    run M R T sin
      (process_stream c s1 ++ SetFrequency fr c :: process_stream c s2) g
    = Some (os, g') /\
    load (fcw g') c = Some (control_word fr (samplerate g)) /\
    load (accu g') c
      = Some ((a + Z.of_nat (length s1) * f
               + Z.of_nat (length s2) * control_word fr (samplerate g))
              mod 2 ^ 32).
Proof.
  intros Hwf Hc Ha Hf.
  destruct (process_stream_accu M R T sin c f s1 g a Hwf Hc Ha Hf)
    as (os1 & g1 & Hrun1 & Hwf1 & _ & Hacc1 & Hfcw1 & _ & Hrate1).
  assert (Hb : 0 <= c < Z.of_nat (length (fcw g1)))
    by (rewrite (wf_fcw_size M g1 Hwf1); exact Hc).
  destruct (downmixer_setFrequency_total T fr c g1 Hb) as [g2 E2].
  pose proof (downmixer_setFrequency_wf M T fr c g1 g2 Hwf1 E2) as Hwf2.
  pose proof E2 as E2'.
  apply downmixer_setFrequency_inv in E2'
    as (_ & _ & _ & Hacc2 & _ & _ & _ & Hfcw2).
  rewrite Hrate1 in Hfcw2.
  destruct (process_stream_accu M R T sin c
              (control_word fr (samplerate g)) s2 g2
              ((a + Z.of_nat (length s1) * f) mod 2 ^ 32) Hwf2 Hc)
    as (os2 & g3 & Hrun3 & _ & _ & Hacc3 & Hfcw3 & _).
  { rewrite Hacc2. exact Hacc1. }
  { rewrite Hfcw2. now apply load_insert_eq. }
  exists (os1 ++ os2), g3.
  rewrite run_app, Hrun1, run_cons. cbn [exec]. rewrite E2.
  cbn [mbind option_bind]. rewrite Hrun3.
  split; [reflexivity|]. split.
  - rewrite Hfcw3, Hfcw2. now apply load_insert_eq.
  - rewrite Hacc3, Zplus_mod_idemp_l. reflexivity.
Qed.

Lemma retuning_keeps_phase_witness :
  exists os g',
    Bench.run
      (process_stream 0 [(1000, -500); (1000, -500)]
       ++ SetFrequency 10000 0 :: process_stream 0 [(1000, -500)])
      (Bench.tuned 300000 536870912)
    = Some (os, g') /\
    load (fcw g') 0
      = Some (control_word 10000 (samplerate (Bench.tuned 300000 536870912))) /\
    load (accu g') 0
      = Some ((0 + Z.of_nat (length [(1000, -500); (1000, -500)]) * 536870912
               + Z.of_nat (length [(1000, -500)])
                 * control_word 10000
                     (samplerate (Bench.tuned 300000 536870912)))
              mod 2 ^ 32).
Proof.
  apply (retuning_keeps_phase Bench.MAX_CLIENTS Bench.NB_SAMPLE_RATE
           Bench.TUNED_FREQUENCY Libm.sin 0 10000
           [(1000, -500); (1000, -500)] [(1000, -500)]
           (Bench.tuned 300000 536870912) 0 536870912).
  - exact bench_300k_wf.
  - unfold channel, Bench.MAX_CLIENTS. lia.
  - reflexivity.
  - reflexivity.
Defined.

(** X20. I and Q are mixed alike. [downmixer_process] multiplies both
    samples by the same oscillator value and shifts both by the same level
    shift: with the two samples exchanged it writes back the two results
    exchanged and leaves the same accumulators, and for equal samples it
    writes back equal results. *)
Theorem samples_mixed_alike isample qsample c g i' q' g' :
  downmixer_process isample qsample c g = Some (i', q', g') ->
  (exists g'',
     downmixer_process qsample isample c g = Some (q', i', g'') /\
     accu g'' = accu g') /\
  (isample = qsample -> i' = q').
Proof.
  intros H. pose proof H as H'.
  apply downmixer_process_inv in H'
    as (a & f & lo & Ha & Hf & Hlo & -> & -> & _ & _ & _ & _ & Hacc & _).
  split; [|now intros ->].
  rewrite downmixer_process_mix in H |- *.
  rewrite (increment_NCO_intro c g a f lo Ha Hf Hlo) in H |- *.
  eexists. split; [unfold mix; cbn [sht with_accu]; reflexivity|].
  rewrite Hacc. cbn [mix snd]. unfold mix.
  destruct (_ && _); reflexivity.
Qed.

Lemma samples_mixed_alike_witness :
  (exists g'',
     downmixer_process (-500) 1000 0 (Bench.tuned 300000 536870912)
     = Some (Int.short (Z.shiftr (Int.int (-500 * 23170)) 10),
             Int.short (Z.shiftr (Int.int (1000 * 23170)) 10), g'') /\
     accu g''
     = accu (with_accu [536870912; 0] (Bench.tuned 300000 536870912))) /\
  (1000 = -500 ->
   Int.short (Z.shiftr (Int.int (1000 * 23170)) 10)
   = Int.short (Z.shiftr (Int.int (-500 * 23170)) 10)).
Proof.
  apply (samples_mixed_alike 1000 (-500) 0 (Bench.tuned 300000 536870912)
           (Int.short (Z.shiftr (Int.int (1000 * 23170)) 10))
           (Int.short (Z.shiftr (Int.int (-500 * 23170)) 10))
           (with_accu [536870912; 0] (Bench.tuned 300000 536870912))).
  apply bench_300k_quiet. reflexivity.
Defined.

(** X21. The level shift is one for all clients. When a sample of client
    [c1] overflows and raises the level shift, the next call for another
    client [c2] shifts its products by one bit more than it would have
    without that call of [c1], with the same oscillator value: a loud
    sample of one client halves the level of every client. *)
Theorem level_shift_is_shared M i1 q1 c1 i2 q2 c2 g lo1 g1 :
  wf M g -> channel M c1 -> channel M c2 -> c1 <> c2 ->
  Int.is_short i1 -> Int.is_short i2 -> Int.is_short q2 ->
  increment_NCO c1 g = Some (lo1, g1) ->
  32767 < i1 * lo1 / 2 ^ sht g -> sht g < 15 ->
  exists o1 g1' lo2 g2 g2',
    downmixer_process i1 q1 c1 g = Some (o1, g1') /\
    sht g1' = sht g + 1 /\
    downmixer_process i2 q2 c2 g
      = Some (Int.short (i2 * lo2 / 2 ^ sht g),
              Int.short (q2 * lo2 / 2 ^ sht g), g2) /\
    downmixer_process i2 q2 c2 g1'
      = Some (Int.short (i2 * lo2 / 2 ^ (sht g + 1)),
              Int.short (q2 * lo2 / 2 ^ (sht g + 1)), g2').
Proof.
  intros Hwf Hc1 Hc2 Hne Hi1 Hi2 Hq2 E Hgt Hlt.
  pose proof (wf_sht M g Hwf) as Hs.
  apply increment_NCO_inv in E as (a1 & f1 & Ha1 & Hf1 & Hlo1 & _).
  assert (Hl1 : Int.is_short lo1)
    by exact (load_Forall _ _ _ _ (wf_table M g Hwf) Hlo1).
  destruct (downmixer_process_spec M i1 q1 c1 g Hwf Hc1)
    as (a & f & lo & Ha & Hf & Hlo & _ & E1).
  assert (a = a1) by congruence. assert (f = f1) by congruence. subst a f.
  assert (lo = lo1) by congruence. subst lo.
  rewrite (int_id (i1 * lo1)) in E1 by (now apply short_product).
  rewrite (Z.shiftr_div_pow2 (i1 * lo1)) in E1 by lia.
  replace (32767 <? i1 * lo1 / 2 ^ sht g) with true in E1
    by (symmetry; apply Z.ltb_lt; exact Hgt).
  replace (sht g <? 15) with true in E1 by (symmetry; apply Z.ltb_lt; exact Hlt).
  cbn [andb] in E1.
  match type of E1 with _ = Some (_, _, ?h) => set (h1 := h) in * end.
  assert (Hwf1 : wf M h1) by (eapply downmixer_process_wf; [exact Hwf | exact E1]).
  destruct (downmixer_process_spec M i2 q2 c2 g Hwf Hc2)
    as (a2 & f2 & lo2 & Ha2 & Hf2 & Hlo2 & Hl2 & E2).
  destruct (downmixer_process_spec M i2 q2 c2 h1 Hwf1 Hc2)
    as (a3 & f3 & lo3 & Ha3 & Hf3 & Hlo3 & _ & E3).
  assert (Hb : 0 <= c1) by (apply load_Some in Ha1 as [Ha1 _]; lia).
  subst h1. cbn [accu fcw sinetable sht] in Ha3, Hf3, Hlo3, E3.
  rewrite load_insert_ne in Ha3 by assumption.
  assert (a3 = a2) by congruence. assert (f3 = f2) by congruence. subst a3 f3.
  assert (lo3 = lo2) by congruence. subst lo3.
  rewrite !(int_id (i2 * lo2)), !(int_id (q2 * lo2)) in E2, E3
    by (now apply short_product).
  rewrite !Z.shiftr_div_pow2 in E2, E3 by lia.
  eexists (_, _), _, lo2, _, _.
  split; [exact E1|]. split; [reflexivity|]. split; [exact E2 | exact E3].
Qed.

Lemma level_shift_is_shared_witness :
  exists o1 g1' lo2 g2 g2',
    downmixer_process 32767 0 0 (Bench.tuned 300000 536870912)
      = Some (o1, g1') /\
    sht g1' = sht (Bench.tuned 300000 536870912) + 1 /\
    downmixer_process 1000 (-500) 1 (Bench.tuned 300000 536870912)
      = Some (Int.short (1000 * lo2 / 2 ^ sht (Bench.tuned 300000 536870912)),
              Int.short (-500 * lo2 / 2 ^ sht (Bench.tuned 300000 536870912)),
              g2) /\
    downmixer_process 1000 (-500) 1 g1'
      = Some (Int.short
                (1000 * lo2 / 2 ^ (sht (Bench.tuned 300000 536870912) + 1)),
              Int.short
                (-500 * lo2 / 2 ^ (sht (Bench.tuned 300000 536870912) + 1)),
              g2').
Proof.
  apply (level_shift_is_shared Bench.MAX_CLIENTS 32767 0 0 1000 (-500) 1
           (Bench.tuned 300000 536870912) 23170
           (with_accu [536870912; 0] (Bench.tuned 300000 536870912))).
  - exact bench_300k_wf.
  - unfold channel, Bench.MAX_CLIENTS. lia.
  - unfold channel, Bench.MAX_CLIENTS. lia.
  - discriminate.
  - unfold Int.is_short. lia.
  - unfold Int.is_short. lia.
  - unfold Int.is_short. lia.
  - exact bench_300k_NCO.
  - reflexivity.
  - reflexivity.
Defined.

(** X22. The mixer rounds down, and its gain. For a sample below [2^sht]
    in magnitude, the sample written back is the product with the
    oscillator value divided by [2^sht] and rounded toward minus infinity
    (a negative product is not rounded toward zero), and its magnitude is
    at most the magnitude of the sample times [2^(15 - sht)]: a gain of 32
    at the initial shift, of 1 at the last. *)
Theorem mixer_rounds_down M isample qsample c g lo g1 i' q' g' :
  wf M g -> increment_NCO c g = Some (lo, g1) ->
  downmixer_process isample qsample c g = Some (i', q', g') ->
  Z.abs isample < 2 ^ sht g -> Z.abs qsample < 2 ^ sht g ->
  (i' * 2 ^ sht g <= isample * lo < (i' + 1) * 2 ^ sht g /\
   Z.abs i' <= Z.abs isample * 2 ^ (15 - sht g)) /\
  (q' * 2 ^ sht g <= qsample * lo < (q' + 1) * 2 ^ sht g /\
   Z.abs q' <= Z.abs qsample * 2 ^ (15 - sht g)).
Proof.
  intros Hwf E H Hi Hq.
  pose proof (wf_sht M g Hwf) as Hs.
  apply increment_NCO_inv in E as (a & f & Ha & Hf & Hlo & _).
  assert (Hl : Int.is_short lo)
    by exact (load_Forall _ _ _ _ (wf_table M g Hwf) Hlo).
  apply downmixer_process_inv in H
    as (a' & f' & lo' & Ha' & Hf' & Hlo' & -> & -> & _).
  assert (a' = a) by congruence. assert (f' = f) by congruence. subst a' f'.
  assert (lo' = lo) by congruence. subst lo'.
  assert (Hp : 0 < 2 ^ sht g) by (apply Z.pow_pos_nonneg; lia).
  assert (Hp' : 32768 = 2 ^ (15 - sht g) * 2 ^ sht g).
  { rewrite <- Z.pow_add_r by lia.
    replace (15 - sht g + sht g) with 15 by lia. reflexivity. }
  assert (Hp'' : 0 < 2 ^ (15 - sht g)) by (apply Z.pow_pos_nonneg; lia).
  assert (Hall : forall x, Z.abs x < 2 ^ sht g ->
    let y := Int.short (Z.shiftr (Int.int (x * lo)) (sht g)) in
    y * 2 ^ sht g <= x * lo < (y + 1) * 2 ^ sht g /\
    Z.abs y <= Z.abs x * 2 ^ (15 - sht g)).
  { intros x Hx. cbn zeta.
    destruct (mix_headroom x lo (sht g) Hl Hs Hx) as [-> _].
    pose proof (Z.div_mod (x * lo) (2 ^ sht g) ltac:(lia)) as Hd.
    pose proof (Z.mod_pos_bound (x * lo) (2 ^ sht g) Hp) as Hm.
    split; [lia|].
    unfold Int.is_short in Hl.
    assert (Hxl : - (Z.abs x * 2 ^ (15 - sht g)) * 2 ^ sht g <= x * lo
                  <= Z.abs x * 2 ^ (15 - sht g) * 2 ^ sht g).
    { rewrite <- Z.mul_opp_l, <- !Z.mul_assoc, <- Hp'. nia. }
    assert (- (Z.abs x * 2 ^ (15 - sht g)) <= x * lo / 2 ^ sht g).
    { apply Z.div_le_lower_bound; lia. }
    assert (x * lo / 2 ^ sht g <= Z.abs x * 2 ^ (15 - sht g)).
    { apply Z.div_le_upper_bound; lia. }
    lia. }
  split; [exact (Hall isample Hi) | exact (Hall qsample Hq)].
Qed.

Lemma mixer_rounds_down_witness :
  (Int.short (Z.shiftr (Int.int (1000 * 23170)) 10)
     * 2 ^ sht (Bench.tuned 300000 536870912)
   <= 1000 * 23170
   < (Int.short (Z.shiftr (Int.int (1000 * 23170)) 10) + 1)
     * 2 ^ sht (Bench.tuned 300000 536870912) /\
   Z.abs (Int.short (Z.shiftr (Int.int (1000 * 23170)) 10))
   <= Z.abs 1000 * 2 ^ (15 - sht (Bench.tuned 300000 536870912))) /\
  (Int.short (Z.shiftr (Int.int (-500 * 23170)) 10)
     * 2 ^ sht (Bench.tuned 300000 536870912)
   <= -500 * 23170
   < (Int.short (Z.shiftr (Int.int (-500 * 23170)) 10) + 1)
     * 2 ^ sht (Bench.tuned 300000 536870912) /\
   Z.abs (Int.short (Z.shiftr (Int.int (-500 * 23170)) 10))
   <= Z.abs (-500) * 2 ^ (15 - sht (Bench.tuned 300000 536870912))).
Proof.
  apply (mixer_rounds_down Bench.MAX_CLIENTS 1000 (-500) 0
           (Bench.tuned 300000 536870912) 23170
           (with_accu [536870912; 0] (Bench.tuned 300000 536870912))
           (Int.short (Z.shiftr (Int.int (1000 * 23170)) 10))
           (Int.short (Z.shiftr (Int.int (-500 * 23170)) 10))
           (with_accu [536870912; 0] (Bench.tuned 300000 536870912))).
  - exact bench_300k_wf.
  - exact bench_300k_NCO.
  - apply bench_300k_quiet. reflexivity.
  - reflexivity.
  - reflexivity.
Defined.
